(** * Analytic evaluation of [\int x^n j_l(ax) j_l(bx) dx]: a model of [kint.py]

    The Python module evaluates hard-coded closed forms with [mpmath]
    numbers.  The development below embeds the module over an abstract
    numeric type (the operations [mpmath] provides), keeps the monomial
    cache of [Polynomial] as explicit state, and keeps the Python
    exceptions as an error type. *)

From Stdlib Require Import ZArith QArith Qcanon Qabs Qround Lia.
From stdpp Require Import gmap list strings.

Set Implicit Arguments.
Local Open Scope Z_scope.

(** ** The numeric capability: what the code asks of [mp.mpf] values

    Division by zero and a zero base under a negative exponent raise
    [ZeroDivisionError] in [mpmath]; [mp.log10(0)] is [-inf] and raises
    nothing, so [log10], like [cos], [sin], [fabs] and [floor], is
    total.  No law is assumed of the operations here: each statement
    below names the laws it uses. *)

Class Mpf (T : Type) : Type := {
  mpf : Z -> T;                         (* mp.mpf(<int literal>)            *)
  mpf_quarter : T;                      (* mp.mpf('0.25')                   *)
  mp_add : T -> T -> T;
  mp_sub : T -> T -> T;
  mp_mul : T -> T -> T;
  mp_div : T -> T -> option T;          (* None: ZeroDivisionError          *)
  mp_pow : T -> T -> option T;          (* None: ZeroDivisionError          *)
  mp_cos : T -> T;
  mp_sin : T -> T;
  mp_fabs : T -> T;
  mp_log10 : T -> T;
  mp_floor : T -> T;
  mp_lt : T -> T -> bool;               (* x < y                            *)
  mp_eq : T -> T -> bool                (* x == y                           *)
}.

Declare Scope mp_scope.
Delimit Scope mp_scope with mp.
Infix "+" := mp_add : mp_scope.
Infix "-" := mp_sub : mp_scope.
Infix "*" := mp_mul : mp_scope.

(** The working precision [mp.dps = 200] set at import time. *)
Definition mp_dps : Z := 200.

(** ** Exceptions the module can raise

    [SystemExit] is what [sys.exit(msg)] raises once [sys] is bound. *)

Inductive exn : Type :=
| ZeroDivisionError
| IndexError
| KeyError
| NameError (name : string)
| SystemExit (msg : string).

(** ** Data: [Polynomial], [Term], [Part], [KnlInt]

    [Polynomial.stored] is the dictionary from a degree to its list of
    monomials.  [KnlInt.parts] is always the list
    [[csum, cdiff, ssum, sdiff]], kept here as four fields. *)

Record Polynomial (T : Type) : Type := mkPolynomial {
  poly_a : T;
  poly_b : T;
  poly_a2 : T;
  poly_b2 : T;
  poly_stored : gmap nat (list T)
}.

Record Term (T : Type) : Type := mkTerm {
  term_c : T;
  term_n : T;
  term_m : T;
  term_coeffs : list T
}.

Record Part (T : Type) : Type := mkPart { part_terms : list (Term T) }.

Record KnlInt (T : Type) : Type := mkKnlInt {
  knl_n : T;
  knl_l : T;
  knl_csum : Part T;
  knl_cdiff : Part T;
  knl_ssum : Part T;
  knl_sdiff : Part T
}.

Arguments poly_a {T} _.
Arguments poly_b {T} _.
Arguments poly_a2 {T} _.
Arguments poly_b2 {T} _.
Arguments poly_stored {T} _.

(** ** A state-and-exception monad over the evaluation context

    Every method that receives [poly] may fill [poly.stored]; an
    exception leaves the entries made so far in place. *)

Definition M (T A : Type) : Type := Polynomial T -> Polynomial T * (exn + A).

Definition ret {T A} (x : A) : M T A := fun p => (p, inr x).
Definition raise {T A} (e : exn) : M T A := fun p => (p, inl e).
Definition bind {T A B} (m : M T A) (k : A -> M T B) : M T B :=
  fun p => match m p with
           | (p', inl e) => (p', inl e)
           | (p', inr x) => k x p'
           end.
(** Reading an attribute of [poly], such as [poly.a]. *)
Definition attr {T A} (f : Polynomial T -> A) : M T A := fun p => (p, inr (f p)).
Definition arith {T A} (o : option A) : M T A :=
  match o with Some v => ret v | None => raise ZeroDivisionError end.

Notation "'do' x <- m ; k" := (bind m (fun x => k))
  (at level 10, x name, m at level 100, k at level 200).

Fixpoint mapM {T A B} (f : A -> M T B) (l : list A) : M T (list B) :=
  match l with
  | [] => ret []
  | x :: r => do y <- f x ; do ys <- mapM f r ; ret (y :: ys)
  end.

Section Kint.
Context {T : Type} `{Mpf T}.
Local Open Scope mp_scope.

(** *** Python and numpy helpers *)

(** [sum(l)]: starts from the integer 0 and adds left to right. *)
Definition py_sum (l : list T) : T := fold_left mp_add l (mpf 0).

(** [np.sum] of an object array: the first entry, then the others added
    in order; 0 for an empty array. *)
Definition np_sum (l : list T) : T :=
  match l with
  | [] => mpf 0
  | x :: r => fold_left mp_add r x
  end.

Definition np_full (n : nat) (v : T) : list T := replicate n v.

(** [arr[0] = v] *)
Definition setitem0 (arr : list T) (v : T) : exn + list T :=
  match arr with
  | [] => inl IndexError
  | _ :: r => inr (v :: r)
  end.

Fixpoint cumprod_from (acc : T) (l : list T) : list T :=
  match l with
  | [] => []
  | x :: r => (acc * x) :: cumprod_from (acc * x) r
  end.

Definition np_cumprod (l : list T) : list T :=
  match l with
  | [] => []
  | x :: r => x :: cumprod_from x r
  end.

Definition np_flipud (l : list T) : list T := reverse l.

(** *** class Polynomial (lines 19-63) *)

(** [__init__], lines 28-33. *)
Definition Polynomial_init (a b : T) : Polynomial T :=
  {| poly_a := a; poly_b := b; poly_a2 := a * a; poly_b2 := b * b;
     poly_stored := ∅ |}.

(** [_make_list], lines 41-55: [np.full(n, a2)] with entry 0 set to 1,
    cumulative products, flipped; the same for [b2], not flipped; the
    entry-wise product of the two. *)
Definition _make_list (p : Polynomial T) (n : nat) : exn + list T :=
  match setitem0 (np_full n (poly_a2 p)) (mpf 1) with
  | inl e => inl e
  | inr apoly =>
      let apoly := np_flipud (np_cumprod apoly) in
      match setitem0 (np_full n (poly_b2 p)) (mpf 1) with
      | inl e => inl e
      | inr bpoly =>
          let bpoly := np_cumprod bpoly in
          inr (zip_with mp_mul apoly bpoly)
      end
  end.

(** [get_list], lines 35-39. *)
Definition get_list (n : nat) : M T (list T) := fun p =>
  match poly_stored p !! n with
  | Some l => (p, inr l)
  | None =>
      match _make_list p n with
      | inl e => (p, inl e)
      | inr l =>
          ({| poly_a := poly_a p; poly_b := poly_b p;
              poly_a2 := poly_a2 p; poly_b2 := poly_b2 p;
              poly_stored := <[n := l]> (poly_stored p) |}, inr l)
      end
  end.

(** [eval_poly], lines 57-63: [np.sum(coeff * self.get_list(len(coeff)))]. *)
Definition eval_poly (coeff : list T) : M T T :=
  do l <- get_list (length coeff) ;
  ret (np_sum (zip_with mp_mul coeff l)).

(** *** class Term (lines 65-85) *)

(** [__init__], lines 71-77: every argument goes through [mp.mpf]. *)
Definition Term_init (c n m : Z) (coeffs : list Z) : Term T :=
  {| term_c := mpf c; term_n := mpf n; term_m := mpf m;
     term_coeffs := map mpf coeffs |}.

(** [evaluate], lines 79-85. *)
Definition Term_evaluate (t : Term T) (x : T) : M T T :=
  do xn <- arith (mp_pow x (term_n t)) ;
  do abm <- (if negb (mp_eq (term_m t) (mpf 0))
             then do a <- attr poly_a ;
                  do b <- attr poly_b ;
                  arith (mp_pow (a * b) (term_m t))
             else ret (mpf 1)) ;
  do w <- eval_poly (term_coeffs t) ;
  ret (term_c t * xn * abm * w).

(** *** class Part (lines 87-97) *)

(** [evaluate]: every term is evaluated, in order, then [sum]. *)
Definition Part_evaluate (pt : Part T) (x : T) : M T T :=
  do vs <- mapM (fun t => Term_evaluate t x) (part_terms pt) ;
  ret (py_sum vs).

(** *** class KnlInt (lines 99-140) *)

Definition KnlInt_init (n l : Z) (csum cdiff ssum sdiff : Part T) : KnlInt T :=
  {| knl_n := mpf n; knl_l := mpf l;
     knl_csum := csum; knl_cdiff := cdiff;
     knl_ssum := ssum; knl_sdiff := sdiff |}.

(** [evaluate], lines 112-124: the four normalised components,
    [termlist] after line 124.  A quotient [u / v ** w] is written as the
    power followed by the division; both are pure and raise the same
    exception, so their order does not show. *)
Definition KnlInt_termlist (k : KnlInt T) (x : T) : M T (list T) :=
  do csum <- Part_evaluate (knl_csum k) x ;
  do cdiff <- Part_evaluate (knl_cdiff k) x ;
  do ssum <- Part_evaluate (knl_ssum k) x ;
  do sdiff <- Part_evaluate (knl_sdiff k) x ;
  do a <- attr poly_a ;
  do b <- attr poly_b ;
  do abl <- arith (mp_pow (a * b) (knl_l k + mpf 1)) ;
  let apb := a + b in
  let amb := a - b in
  do dcp <- arith (mp_pow apb (knl_n k - mpf 2)) ;
  do cpterm <- arith (mp_div (mp_cos (x * apb) * (csum + cdiff)) dcp) ;
  do dcm <- arith (mp_pow amb (knl_n k - mpf 2)) ;
  do cmterm <- arith (mp_div (mp_cos (x * amb) * (csum - cdiff)) dcm) ;
  do dsp <- arith (mp_pow apb (knl_n k - mpf 1)) ;
  do spterm <- arith (mp_div (mp_sin (x * apb) * (ssum + sdiff)) dsp) ;
  do dsm <- arith (mp_pow amb (knl_n k - mpf 1)) ;
  do smterm <- arith (mp_div (mp_sin (x * amb) * (ssum - sdiff)) dsm) ;
  mapM (fun term => do q <- arith (mp_div mpf_quarter abl) ; ret (q * term))
       [cpterm; cmterm; spterm; smterm].

(** [prec_remaining] of lines 126-133.  The [print] of line 134 writes
    this number to standard output and has no part in the result. *)
Definition prec_remaining (termlist : list T) : T :=
  let abslist := map mp_fabs termlist in
  let maxdigits := mp_floor (mp_log10 (py_sum abslist)) in
  let result := py_sum termlist in
  let resdigits := mp_floor (mp_log10 (mp_fabs result)) in
  let prec_loss := maxdigits - resdigits in
  mpf mp_dps - prec_loss.

(** [sys.exit(...)]: the module never imports [sys], so looking the name
    up raises [NameError] before [exit] can be reached. *)
Definition sys_exit {A} (msg : string) : M T A := raise (NameError "sys").

(** [evaluate], lines 126-140. *)
Definition KnlInt_evaluate (k : KnlInt T) (x : T) : M T T :=
  do termlist <- KnlInt_termlist k x ;
  let result := py_sum termlist in
  if mp_lt (prec_remaining termlist) (mpf 13)
  then sys_exit "Insufficient precision"
  else ret result.

(** *** The table [integrals] (lines 157-355)

    [Term(c, n, m)] without a fourth argument takes the default
    [coeffs=[1]], written out below. *)

(* n=4, l=0 *)
Definition knl_4_0 : KnlInt T :=
  let n := 4 in
  let l := 0 in
  let csum := mkPart
    [] in
  let cdiff := mkPart
    [Term_init (-4) 1 0 [1]] in
  let ssum := mkPart
    [Term_init (-4) 2 1 [1]] in
  let sdiff := mkPart
    [Term_init 4 0 0 [1];
     Term_init (-2) 2 0 [1; 1]] in
  KnlInt_init n l csum cdiff ssum sdiff.

(* n=4, l=1 *)
Definition knl_4_1 : KnlInt T :=
  let n := 4 in
  let l := 1 in
  let csum := mkPart
    [Term_init 8 1 1 [1]] in
  let cdiff := mkPart
    [Term_init 2 1 0 [1; 1]] in
  let ssum := mkPart
    [Term_init (-12) 0 1 [1];
     Term_init 2 2 1 [1; 1]] in
  let sdiff := mkPart
    [Term_init 4 2 2 [1];
     Term_init (-4) 0 0 [1; 1]] in
  KnlInt_init n l csum cdiff ssum sdiff.

(* n=4, l=2 *)
Definition knl_4_2 : KnlInt T :=
  let n := 4 in
  let l := 2 in
  let csum := mkPart
    [Term_init 36 (-1) 1 [1];
     Term_init (-6) 1 1 [1; 1]] in
  let cdiff := mkPart
    [Term_init (-16) 1 2 [1];
     Term_init 18 (-1) 0 [1; 1]] in
  let ssum := mkPart
    [Term_init (-4) 2 3 [1];
     Term_init 36 0 1 [1; 1]] in
  let sdiff := mkPart
    [Term_init (-2) 2 2 [1; 1];
     Term_init 2 0 0 [3; 32; 3]] in
  KnlInt_init n l csum cdiff ssum sdiff.

(* n=4, l=3 *)
Definition knl_4_3 : KnlInt T :=
  let n := 4 in
  let l := 3 in
  let csum := mkPart
    [Term_init 300 (-3) 1 [1];
     Term_init 28 1 3 [1];
     Term_init (-210) (-1) 1 [1; 1]] in
  let cdiff := mkPart
    [Term_init 150 (-3) 0 [1; 1];
     Term_init 12 1 2 [1; 1];
     Term_init (-30) (-1) 0 [1; 12; 1]] in
  let ssum := mkPart
    [Term_init 600 (-2) 1 [1; 1];
     Term_init 2 2 3 [1; 1];
     Term_init (-2) 0 1 [15; 116; 15]] in
  let sdiff := mkPart
    [Term_init 4 2 4 [1];
     Term_init (-144) 0 2 [1; 1];
     Term_init 150 (-2) 0 [1; 6; 1]] in
  KnlInt_init n l csum cdiff ssum sdiff.

(* n=4, l=4 *)
Definition knl_4_4 : KnlInt T :=
  let n := 4 in
  let l := 4 in
  let csum := mkPart
    [Term_init 8820 (-5) 1 [1];
     Term_init (-7770) (-3) 1 [1; 1];
     Term_init (-20) 1 3 [1; 1];
     Term_init 30 (-1) 1 [7; 60; 7]] in
  let cdiff := mkPart
    [Term_init (-44) 1 4 [1];
     Term_init 4410 (-5) 0 [1; 1];
     Term_init 1110 (-1) 2 [1; 1];
     Term_init (-420) (-3) 0 [4; 29; 4]] in
  let ssum := mkPart
    [Term_init (-4) 2 5 [1];
     Term_init 17640 (-4) 1 [1; 1];
     Term_init 400 0 3 [1; 1];
     Term_init (-210) (-2) 1 [11; 50; 11]] in
  let sdiff := mkPart
    [Term_init (-2) 2 4 [1; 1];
     Term_init 4410 (-4) 0 [1; 6; 1];
     Term_init (-210) (-2) 0 [1; 35; 35; 1];
     Term_init 6 0 2 [15; 104; 15]] in
  KnlInt_init n l csum cdiff ssum sdiff.

(* n=4, l=5 *)
Definition knl_4_5 : KnlInt T :=
  let n := 4 in
  let l := 5 in
  let csum := mkPart
    [Term_init 510300 (-7) 1 [1];
     Term_init 64 1 5 [1];
     Term_init (-470610) (-5) 1 [1; 1];
     Term_init (-3990) (-1) 3 [1; 1];
     Term_init 420 (-3) 1 [63; 326; 63]] in
  let cdiff := mkPart
    [Term_init 255150 (-7) 0 [1; 1];
     Term_init 30 1 4 [1; 1];
     Term_init (-420) (-1) 2 [2; 15; 2];
     Term_init 210 (-3) 0 [9; 443; 443; 9];
     Term_init (-5670) (-5) 0 [19; 128; 19]] in
  let ssum := mkPart
    [Term_init 1020600 (-6) 1 [1; 1];
     Term_init 2 2 5 [1; 1];
     Term_init 210 (-2) 1 [9; 215; 215; 9];
     Term_init (-5670) (-4) 1 [31; 122; 31];
     Term_init (-2) 0 3 [105; 692; 105]] in
  let sdiff := mkPart
    [Term_init 4 2 6 [1];
     Term_init (-900) 0 4 [1; 1];
     Term_init 255150 (-6) 0 [1; 6; 1];
     Term_init (-22680) (-4) 0 [1; 22; 22; 1];
     Term_init 420 (-2) 2 [37; 150; 37]] in
  KnlInt_init n l csum cdiff ssum sdiff.

(* n=4, l=6 *)
Definition knl_4_6 : KnlInt T :=
  let n := 4 in
  let l := 6 in
  let csum := mkPart
    [Term_init 48024900 (-9) 1 [1];
     Term_init (-45218250) (-7) 1 [1; 1];
     Term_init (-42) 1 5 [1; 1];
     Term_init 2520 (-1) 3 [1; 7; 1];
     Term_init (-630) (-3) 1 [33; 995; 995; 33];
     Term_init 1890 (-5) 1 [1749; 7712; 1749]] in
  let cdiff := mkPart
    [Term_init (-88) 1 6 [1];
     Term_init 24012450 (-9) 0 [1; 1];
     Term_init 11340 (-1) 4 [1; 1];
     Term_init (-623700) (-7) 0 [17; 111; 17];
     Term_init (-1260) (-3) 2 [159; 710; 159];
     Term_init 1890 (-5) 0 [187; 5418; 5418; 187]] in
  let ssum := mkPart
    [Term_init (-4) 2 7 [1];
     Term_init 96049800 (-8) 1 [1; 1];
     Term_init 1764 0 5 [1; 1];
     Term_init (-6300) (-2) 3 [11; 42; 11];
     Term_init 7560 (-4) 1 [55; 754; 754; 55];
     Term_init (-103950) (-6) 1 [177; 662; 177]] in
  let sdiff := mkPart
    [Term_init (-2) 2 6 [1; 1];
     Term_init 24012450 (-8) 0 [1; 6; 1];
     Term_init (-3150) (-2) 2 [3; 61; 61; 3];
     Term_init (-103950) (-6) 0 [25; 483; 483; 25];
     Term_init 4 0 4 [105; 673; 105];
     Term_init 1890 (-4) 0 [11; 1205; 4040; 1205; 11]] in
  KnlInt_init n l csum cdiff ssum sdiff.

(* n=4, l=7 *)
Definition knl_4_7 : KnlInt T :=
  let n := 4 in
  let l := 7 in
  let csum := mkPart
    [Term_init 6640533900 (-11) 1 [1];
     Term_init 116 1 7 [1];
     Term_init (-6328372050) (-9) 1 [1; 1];
     Term_init (-27468) (-1) 5 [1; 1];
     Term_init 3118500 (-7) 1 [169; 692; 169];
     Term_init (-20790) (-5) 1 [325; 5446; 5446; 325];
     Term_init 2520 (-3) 3 [407; 1675; 407]] in
  let cdiff := mkPart
    [Term_init 3320266950 (-11) 0 [1; 1];
     Term_init 56 1 6 [1; 1];
     Term_init (-252) (-1) 4 [25; 168; 25];
     Term_init (-28378350) (-9) 0 [53; 340; 53];
     Term_init 1260 (-3) 2 [99; 2390; 2390; 99];
     Term_init 623700 (-7) 0 [104; 2471; 2471; 104];
     Term_init (-20790) (-5) 0 [13; 2032; 7452; 2032; 13]] in
  let ssum := mkPart
    [Term_init 13281067800 (-10) 1 [1; 1];
     Term_init 2 2 7 [1; 1];
     Term_init 3150 (-2) 3 [11; 205; 205; 11];
     Term_init (-12) 0 5 [63; 397; 63];
     Term_init (-28378350) (-8) 1 [95; 346; 95];
     Term_init 20790 (-6) 1 [4017; 44359; 44359; 4017];
     Term_init (-20790) (-4) 1 [13; 831; 2560; 831; 13]] in
  let sdiff := mkPart
    [Term_init 4 2 8 [1];
     Term_init (-3136) 0 6 [1; 1];
     Term_init 3320266950 (-10) 0 [1; 6; 1];
     Term_init (-56756700) (-8) 0 [7; 127; 127; 7];
     Term_init 12600 (-2) 4 [19; 70; 19];
     Term_init (-83160) (-4) 2 [44; 487; 487; 44];
     Term_init 20790 (-6) 0 [299; 18932; 58290; 18932; 299]] in
  KnlInt_init n l csum cdiff ssum sdiff.

(* n=4, l=8 *)
Definition knl_4_8 : KnlInt T :=
  let n := 4 in
  let l := 8 in
  let csum := mkPart
    [Term_init 1264255492500 (-13) 1 [1];
     Term_init (-1214451488250) (-11) 1 [1; 1];
     Term_init (-72) 1 7 [1; 1];
     Term_init 1260 (-1) 5 [11; 72; 11];
     Term_init (-13860) (-3) 3 [39; 830; 830; 39];
     Term_init (-40540500) (-7) 1 [48; 625; 625; 48];
     Term_init 28378350 (-9) 1 [3855; 15124; 3855];
     Term_init 20790 (-5) 1 [195; 16224; 53692; 16224; 195]] in
  let cdiff := mkPart
    [Term_init (-148) 1 8 [1];
     Term_init 632127746250 (-13) 0 [1; 1];
     Term_init 59220 (-1) 6 [1; 1];
     Term_init (-7662154500) (-11) 0 [38; 241; 38];
     Term_init (-27720) (-3) 4 [147; 575; 147];
     Term_init 28378350 (-9) 0 [510; 10907; 10907; 510];
     Term_init 20790 (-5) 2 [3107; 40158; 40158; 3107];
     Term_init (-8108100) (-7) 0 [15; 1259; 4182; 1259; 15]] in
  let ssum := mkPart
    [Term_init (-4) 2 9 [1];
     Term_init 2528510985000 (-12) 1 [1; 1];
     Term_init 5184 0 7 [1; 1];
     Term_init (-138600) (-2) 5 [5; 18; 5];
     Term_init (-1351350) (-6) 1 [99; 3396; 9410; 3396; 99];
     Term_init (-3831077250) (-10) 1 [139; 498; 139];
     Term_init 83160 (-4) 3 [260; 2549; 2549; 260];
     Term_init 56756700 (-8) 1 [345; 3409; 3409; 345]] in
  let sdiff := mkPart
    [Term_init (-2) 2 8 [1; 1];
     Term_init 632127746250 (-12) 0 [1; 6; 1];
     Term_init (-34650) (-2) 4 [3; 53; 53; 3];
     Term_init (-3831077250) (-10) 0 [21; 367; 367; 21];
     Term_init 4 0 6 [315; 1963; 315];
     Term_init (-1351350) (-6) 0 [3; 862; 7335; 7335; 862; 3];
     Term_init 28378350 (-8) 0 [60; 3017; 8862; 3017; 60];
     Term_init 20790 (-4) 2 [91; 4525; 13240; 4525; 91]] in
  KnlInt_init n l csum cdiff ssum sdiff.

(* n=4, l=9 *)
Definition knl_4_9 : KnlInt T :=
  let n := 4 in
  let l := 9 in
  let csum := mkPart
    [Term_init 316653859021500 (-15) 1 [1];
     Term_init 184 1 9 [1];
     Term_init (-305907687335250) (-13) 1 [1; 1];
     Term_init (-116820) (-1) 7 [1; 1];
     Term_init 13860 (-3) 5 [975; 3686; 975];
     Term_init (-270270) (-5) 3 [1555; 17262; 17262; 1555];
     Term_init 2554051500 (-11) 1 [11373; 43390; 11373];
     Term_init (-28378350) (-9) 1 [21998; 249171; 249171; 21998];
     Term_init 40540500 (-7) 1 [68; 2903; 8565; 2903; 68]] in
  let cdiff := mkPart
    [Term_init 158326929510750 (-15) 0 [1; 1];
     Term_init 90 1 8 [1; 1];
     Term_init (-3960) (-1) 6 [7; 45; 7];
     Term_init (-716411445750) (-13) 0 [103; 648; 103];
     Term_init 6930 (-3) 4 [273; 5363; 5363; 273];
     Term_init 1277025750 (-11) 0 [3145; 62991; 62991; 3145];
     Term_init 4054050 (-7) 0 [17; 6765; 65753; 65753; 6765; 17];
     Term_init (-270270) (-5) 2 [120; 7329; 22736; 7329; 120];
     Term_init (-56756700) (-9) 0 [833; 52514; 164475; 52514; 833]] in
  let ssum := mkPart
    [Term_init 633307718043000 (-14) 1 [1; 1];
     Term_init 2 2 9 [1; 1];
     Term_init 6930 (-2) 5 [39; 665; 665; 39];
     Term_init (-4) 0 7 [495; 3061; 495];
     Term_init (-238803815250) (-12) 1 [573; 2030; 573];
     Term_init 255405150 (-10) 1 [21947; 202709; 202709; 21947];
     Term_init (-1891890) (-4) 3 [5; 215; 608; 215; 5];
     Term_init 1351350 (-6) 1 [51; 7586; 55503; 55503; 7586; 51];
     Term_init (-4054050) (-8) 1 [13600; 350695; 913962; 350695; 13600]] in
  let sdiff := mkPart
    [Term_init 4 2 10 [1];
     Term_init (-8100) 0 8 [1; 1];
     Term_init 158326929510750 (-14) 0 [1; 6; 1];
     Term_init (-7567560) (-4) 4 [13; 118; 118; 13];
     Term_init (-955215261000) (-12) 0 [22; 375; 375; 22];
     Term_init 13860 (-2) 6 [127; 450; 127];
     Term_init (-8108100) (-8) 0 [323; 48975; 361340; 361340; 48975; 323];
     Term_init 510810300 (-10) 0 [1037; 45881; 130820; 45881; 1037];
     Term_init 1351350 (-6) 2 [1062; 27015; 70126; 27015; 1062]] in
  KnlInt_init n l csum cdiff ssum sdiff.

(* n=4, l=10 *)
Definition knl_4_10 : KnlInt T :=
  let n := 4 in
  let l := 10 in
  let csum := mkPart
    [Term_init 100863567447142500 (-17) 1 [1];
     Term_init (-97855355786438250) (-15) 1 [1; 1];
     Term_init (-110) 1 9 [1; 1];
     Term_init 1980 (-1) 7 [26; 165; 26];
     Term_init (-12870) (-3) 5 [441; 8203; 8203; 441];
     Term_init (-21709437750) (-11) 1 [10811; 112109; 112109; 10811];
     Term_init 716411445750 (-13) 1 [13471; 50392; 13471];
     Term_init (-4054050) (-7) 1 [323; 62135; 507299; 507299; 62135; 323];
     Term_init 270270 (-5) 3 [680; 34517; 102480; 34517; 680];
     Term_init 16216200 (-9) 1 [93347; 2888861; 7948878; 2888861; 93347]] in
  let cdiff := mkPart
    [Term_init (-224) 1 10 [1];
     Term_init 50431783723571250 (-17) 0 [1; 1];
     Term_init 214830 (-1) 8 [1; 1];
     Term_init (-353907254200500) (-15) 0 [67; 419; 67];
     Term_init (-25740) (-3) 6 [1519; 5606; 1519];
     Term_init 716411445750 (-13) 0 [1919; 36748; 36748; 1919];
     Term_init 270270 (-5) 4 [7820; 78617; 78617; 7820];
     Term_init (-43418875500) (-11) 0 [456; 24339; 73330; 24339; 456];
     Term_init (-8108100) (-7) 2 [3910; 118660; 324617; 118660; 3910];
     Term_init 4054050 (-9) 0 [15181; 3001979; 24809428; 24809428; 3001979; 15181]] in
  let ssum := mkPart
    [Term_init (-4) 2 11 [1];
     Term_init 201727134894285000 (-16) 1 [1; 1];
     Term_init 12100 0 9 [1; 1];
     Term_init 7567560 (-4) 5 [49; 422; 422; 49];
     Term_init (-25740) (-2) 7 [157; 550; 157];
     Term_init (-176953627100250) (-14) 1 [251; 882; 251];
     Term_init 955215261000 (-12) 1 [2052; 18113; 18113; 2052];
     Term_init (-1351350) (-6) 3 [7718; 164231; 408030; 164231; 7718];
     Term_init 8108100 (-8) 1 [8075; 602055; 3737318; 3737318; 602055; 8075];
     Term_init (-1240539300) (-10) 1 [19323; 423039; 1059772; 423039; 19323]] in
  let sdiff := mkPart
    [Term_init (-2) 2 10 [1; 1];
     Term_init 50431783723571250 (-16) 0 [1; 6; 1];
     Term_init (-176953627100250) (-14) 0 [39; 653; 653; 39];
     Term_init (-12870) (-2) 6 [49; 815; 815; 49];
     Term_init 6 0 8 [495; 3044; 495];
     Term_init 1891890 (-4) 4 [20; 783; 2162; 783; 20];
     Term_init (-1351350) (-6) 2 [459; 49179; 326326; 326326; 49179; 459];
     Term_init 238803815250 (-12) 0 [817; 33313; 93060; 33313; 817];
     Term_init (-620269650) (-10) 0 [2242; 250543; 1691711; 1691711; 250543; 2242];
     Term_init 4054050 (-8) 0 [323; 208318; 3842665; 9287180; 3842665; 208318; 323]] in
  KnlInt_init n l csum cdiff ssum sdiff.

(* n=6, l=0 *)
Definition knl_6_0 : KnlInt T :=
  let n := 6 in
  let l := 0 in
  let csum := mkPart
    [Term_init (-16) 3 1 [1]] in
  let cdiff := mkPart
    [Term_init 48 1 0 [1];
     Term_init (-8) 3 0 [1; 1]] in
  let ssum := mkPart
    [Term_init 48 2 1 [1];
     Term_init (-8) 4 1 [1; 1]] in
  let sdiff := mkPart
    [Term_init (-48) 0 0 [1];
     Term_init 24 2 0 [1; 1];
     Term_init (-2) 4 0 [1; 6; 1]] in
  KnlInt_init n l csum cdiff ssum sdiff.

(* n=6, l=1 *)
Definition knl_6_1 : KnlInt T :=
  let n := 6 in
  let l := 1 in
  let csum := mkPart
    [Term_init (-80) 1 1 [1];
     Term_init 16 3 1 [1; 1]] in
  let cdiff := mkPart
    [Term_init (-16) 1 0 [1; 1];
     Term_init 2 3 0 [1; 14; 1]] in
  let ssum := mkPart
    [Term_init 80 0 1 [1];
     Term_init (-56) 2 1 [1; 1];
     Term_init 2 4 1 [1; 6; 1]] in
  let sdiff := mkPart
    [Term_init 16 0 0 [1; 1];
     Term_init 8 4 2 [1; 1];
     Term_init (-8) 2 0 [1; 12; 1]] in
  KnlInt_init n l csum cdiff ssum sdiff.

(* n=6, l=2 *)
Definition knl_6_2 : KnlInt T :=
  let n := 6 in
  let l := 2 in
  let csum := mkPart
    [Term_init 168 1 1 [1; 1];
     Term_init (-2) 3 1 [3; 26; 3]] in
  let cdiff := mkPart
    [Term_init (-32) 3 2 [1; 1];
     Term_init 6 1 0 [5; 54; 5]] in
  let ssum := mkPart
    [Term_init (-240) 0 1 [1; 1];
     Term_init (-8) 4 3 [1; 1];
     Term_init 12 2 1 [5; 26; 5]] in
  let sdiff := mkPart
    [Term_init (-2) 4 2 [1; 6; 1];
     Term_init (-48) 0 0 [1; 9; 1];
     Term_init 6 2 0 [1; 35; 35; 1]] in
  KnlInt_init n l csum cdiff ssum sdiff.

(* n=6, l=3 *)
Definition knl_6_3 : KnlInt T :=
  let n := 6 in
  let l := 3 in
  let csum := mkPart
    [Term_init 1800 (-1) 1 [1; 1];
     Term_init 56 3 3 [1; 1];
     Term_init (-30) 1 1 [11; 58; 11]] in
  let cdiff := mkPart
    [Term_init 450 (-1) 0 [1; 6; 1];
     Term_init 4 3 2 [3; 22; 3];
     Term_init (-6) 1 0 [5; 191; 191; 5]] in
  let ssum := mkPart
    [Term_init 2 4 3 [1; 6; 1];
     Term_init (-6) 2 1 [5; 111; 111; 5];
     Term_init 60 0 1 [25; 98; 25]] in
  let sdiff := mkPart
    [Term_init 8 4 4 [1; 1];
     Term_init (-12) 2 2 [19; 78; 19];
     Term_init 6 0 0 [35; 701; 701; 35]] in
  KnlInt_init n l csum cdiff ssum sdiff.

(* n=6, l=4 *)
Definition knl_6_4 : KnlInt T :=
  let n := 6 in
  let l := 4 in
  let csum := mkPart
    [Term_init 29400 (-3) 1 [1; 1];
     Term_init 70 1 1 [3; 73; 73; 3];
     Term_init (-4) 3 3 [5; 34; 5];
     Term_init (-1050) (-1) 1 [15; 58; 15]] in
  let cdiff := mkPart
    [Term_init (-88) 3 4 [1; 1];
     Term_init 7350 (-3) 0 [1; 6; 1];
     Term_init (-2100) (-1) 0 [1; 21; 21; 1];
     Term_init 2 1 2 [855; 3634; 855]] in
  let ssum := mkPart
    [Term_init (-8) 4 5 [1; 1];
     Term_init 14700 (-2) 1 [3; 10; 3];
     Term_init (-50) 0 1 [63; 737; 737; 63];
     Term_init 4 2 3 [155; 582; 155]] in
  let sdiff := mkPart
    [Term_init (-2) 4 4 [1; 6; 1];
     Term_init 7350 (-2) 0 [1; 15; 15; 1];
     Term_init 2 2 2 [45; 847; 847; 45];
     Term_init (-2) 0 0 [105; 7710; 24394; 7710; 105]] in
  KnlInt_init n l csum cdiff ssum sdiff.

(* n=6, l=5 *)
Definition knl_6_5 : KnlInt T :=
  let n := 6 in
  let l := 5 in
  let csum := mkPart
    [Term_init 1428840 (-5) 1 [1; 1];
     Term_init 128 3 5 [1; 1];
     Term_init 1260 (-1) 1 [27; 349; 349; 27];
     Term_init (-13230) (-3) 1 [71; 250; 71];
     Term_init (-6) 1 3 [1015; 3938; 1015]] in
  let cdiff := mkPart
    [Term_init 357210 (-5) 0 [1; 6; 1];
     Term_init (-120) 1 2 [7; 142; 142; 7];
     Term_init (-13230) (-3) 0 [11; 185; 185; 11];
     Term_init 2 3 4 [15; 98; 15];
     Term_init 630 (-1) 0 [3; 284; 930; 284; 3]] in
  let ssum := mkPart
    [Term_init 714420 (-4) 1 [3; 10; 3];
     Term_init 2 4 5 [1; 6; 1];
     Term_init (-42) 2 3 [5; 87; 87; 5];
     Term_init (-13230) (-2) 1 [21; 187; 187; 21];
     Term_init 6 0 1 [315; 14980; 43418; 14980; 315]] in
  let sdiff := mkPart
    [Term_init 8 4 6 [1; 1];
     Term_init 357210 (-4) 0 [1; 15; 15; 1];
     Term_init (-276) 2 4 [5; 18; 5];
     Term_init 3000 0 2 [7; 67; 67; 7];
     Term_init (-26460) (-2) 0 [1; 43; 120; 43; 1]] in
  KnlInt_init n l csum cdiff ssum sdiff.

(* n=6, l=6 *)
Definition knl_6_6 : KnlInt T :=
  let n := 6 in
  let l := 6 in
  let csum := mkPart
    [Term_init 123492600 (-7) 1 [1; 1];
     Term_init 168 1 3 [15; 277; 277; 15];
     Term_init (-2) 3 5 [21; 134; 21];
     Term_init (-561330) (-5) 1 [151; 522; 151];
     Term_init 1890 (-3) 1 [2519; 25109; 25109; 2519];
     Term_init (-1890) (-1) 1 [11; 628; 1890; 628; 11]] in
  let cdiff := mkPart
    [Term_init (-176) 3 6 [1; 1];
     Term_init 30873150 (-7) 0 [1; 6; 1];
     Term_init (-2245320) (-5) 0 [6; 97; 97; 6];
     Term_init (-11340) (-1) 2 [23; 241; 241; 23];
     Term_init 60 1 4 [287; 1062; 287];
     Term_init 1890 (-3) 0 [209; 11109; 32620; 11109; 209]] in
  let ssum := mkPart
    [Term_init (-8) 4 7 [1; 1];
     Term_init 61746300 (-6) 1 [3; 10; 3];
     Term_init 48 2 5 [56; 197; 56];
     Term_init (-187110) (-4) 1 [157; 1267; 1267; 157];
     Term_init (-168) 0 3 [555; 4807; 4807; 555];
     Term_init 3780 (-2) 1 [132; 3341; 8526; 3341; 132]] in
  let sdiff := mkPart
    [Term_init (-2) 4 6 [1; 6; 1];
     Term_init 30873150 (-6) 0 [1; 15; 15; 1];
     Term_init 12 2 4 [35; 583; 583; 35];
     Term_init 1890 (-2) 0 [11; 1902; 13559; 13559; 1902; 11];
     Term_init (-187110) (-4) 0 [17; 602; 1610; 602; 17];
     Term_init (-30) 0 2 [315; 12460; 34506; 12460; 315]] in
  KnlInt_init n l csum cdiff ssum sdiff.

(* n=6, l=7 *)
Definition knl_6_7 : KnlInt T :=
  let n := 6 in
  let l := 7 in
  let csum := mkPart
    [Term_init 16232416200 (-9) 1 [1; 1];
     Term_init 232 3 7 [1; 1];
     Term_init (-44594550) (-7) 1 [255; 874; 255];
     Term_init 1260 (-1) 3 [1067; 9969; 9969; 1067];
     Term_init 166320 (-5) 1 [4667; 41660; 41660; 4667];
     Term_init (-4) 1 5 [10395; 37406; 10395];
     Term_init (-6930) (-3) 1 [1131; 33919; 90468; 33919; 1131]] in
  let cdiff := mkPart
    [Term_init 4058104050 (-9) 0 [1; 6; 1];
     Term_init 8 3 6 [7; 44; 7];
     Term_init (-44594550) (-7) 0 [41; 651; 651; 41];
     Term_init (-28) 1 4 [225; 3931; 3931; 225];
     Term_init (-6930) (-3) 0 [39; 9069; 71176; 71176; 9069; 39];
     Term_init 1260 (-1) 2 [99; 4497; 12880; 4497; 99];
     Term_init 41580 (-5) 0 [1807; 76435; 214132; 76435; 1807]] in
  let ssum := mkPart
    [Term_init 8116208100 (-8) 1 [3; 10; 3];
     Term_init 2 4 7 [1; 6; 1];
     Term_init (-4) 2 5 [189; 3065; 3065; 189];
     Term_init (-14864850) (-6) 1 [283; 2197; 2197; 283];
     Term_init (-6930) (-2) 1 [39; 3946; 24927; 24927; 3946; 39];
     Term_init 20790 (-4) 1 [5239; 101496; 243810; 101496; 5239];
     Term_init 2 0 3 [17325; 620424; 1672366; 620424; 17325]] in
  let sdiff := mkPart
    [Term_init 8 4 8 [1; 1];
     Term_init 4058104050 (-8) 0 [1; 15; 15; 1];
     Term_init (-8) 2 6 [595; 2064; 595];
     Term_init 140 0 4 [2295; 18761; 18761; 2295];
     Term_init (-29729700) (-6) 0 [16; 529; 1390; 529; 16];
     Term_init (-13860) (-2) 2 [321; 6393; 15484; 6393; 321];
     Term_init 20790 (-4) 0 [325; 31671; 196644; 196644; 31671; 325]] in
  KnlInt_init n l csum cdiff ssum sdiff.

(* n=6, l=8 *)
Definition knl_6_8 : KnlInt T :=
  let n := 6 in
  let l := 8 in
  let csum := mkPart
    [Term_init 2988240255000 (-11) 1 [1; 1];
     Term_init (-8) 3 7 [9; 56; 9];
     Term_init (-5533778250) (-9) 1 [383; 1306; 383];
     Term_init 36 1 5 [385; 6491; 6491; 385];
     Term_init 12162150 (-7) 1 [13215; 111469; 111469; 13215];
     Term_init (-41580) (-1) 3 [13; 519; 1440; 519; 13];
     Term_init 62370 (-3) 1 [65; 8203; 56168; 56168; 8203; 65];
     Term_init (-1621620) (-5) 1 [1495; 33659; 84308; 33659; 1495]] in
  let cdiff := mkPart
    [Term_init (-296) 3 8 [1; 1];
     Term_init 747060063750 (-11) 0 [1; 6; 1];
     Term_init (-11067556500) (-9) 0 [31; 487; 487; 31];
     Term_init (-41580) (-1) 4 [129; 1123; 1123; 129];
     Term_init 60 1 6 [1491; 5270; 1491];
     Term_init (-6486480) (-5) 0 [20; 2479; 16828; 16828; 2479; 20];
     Term_init 12162150 (-7) 0 [1370; 52121; 142386; 52121; 1370];
     Term_init 20790 (-3) 2 [3679; 83999; 211260; 83999; 3679]] in
  let ssum := mkPart
    [Term_init (-8) 4 9 [1; 1];
     Term_init 1494120127500 (-10) 1 [3; 10; 3];
     Term_init (-5533778250) (-8) 1 [147; 1117; 1117; 147];
     Term_init 24 2 7 [327; 1124; 327];
     Term_init (-36) 0 5 [25795; 203261; 203261; 25795];
     Term_init 291060 (-2) 3 [91; 1583; 3708; 1583; 91];
     Term_init (-810810) (-4) 1 [185; 9707; 52092; 52092; 9707; 185];
     Term_init 8108100 (-6) 1 [3230; 54919; 127750; 54919; 3230]] in
  let sdiff := mkPart
    [Term_init (-2) 4 8 [1; 6; 1];
     Term_init 747060063750 (-10) 0 [1; 15; 15; 1];
     Term_init 84 2 6 [15; 239; 239; 15];
     Term_init 145530 (-2) 2 [13; 1026; 6017; 6017; 1026; 13];
     Term_init (-5533778250) (-8) 0 [17; 542; 1410; 542; 17];
     Term_init 4054050 (-6) 0 [470; 35923; 207655; 207655; 35923; 470];
     Term_init (-30) 0 4 [3465; 116760; 309286; 116760; 3465];
     Term_init (-810810) (-4) 0 [5; 1937; 28227; 63630; 28227; 1937; 5]] in
  KnlInt_init n l csum cdiff ssum sdiff.

(* n=6, l=9 *)
Definition knl_6_9 : KnlInt T :=
  let n := 6 in
  let l := 9 in
  let csum := mkPart
    [Term_init 730739674665000 (-13) 1 [1; 1];
     Term_init 368 3 9 [1; 1];
     Term_init 41580 (-1) 5 [429; 3563; 3563; 429];
     Term_init (-976924698750) (-11) 1 [535; 1818; 535];
     Term_init (-12) 1 7 [14685; 51274; 14685];
     Term_init 851350500 (-9) 1 [49759; 405409; 405409; 49759];
     Term_init 3243240 (-5) 1 [935; 59405; 344101; 344101; 59405; 935];
     Term_init (-270270) (-3) 3 [1865; 36289; 87780; 36289; 1865];
     Term_init (-60810750) (-7) 1 [13158; 254303; 613806; 254303; 13158]] in
  let cdiff := mkPart
    [Term_init 182684918666250 (-13) 0 [1; 6; 1];
     Term_init (-2520) 1 6 [11; 181; 181; 11];
     Term_init 2 3 8 [45; 278; 45];
     Term_init (-976924698750) (-11) 0 [87; 1357; 1357; 87];
     Term_init (-810810) (-3) 2 [40; 3753; 23555; 23555; 3753; 40];
     Term_init 20790 (-1) 4 [91; 3348; 9090; 3348; 91];
     Term_init (-121621500) (-7) 0 [425; 39561; 247196; 247196; 39561; 425];
     Term_init 425675250 (-9) 0 [10727; 383712; 1031794; 383712; 10727];
     Term_init 810810 (-5) 0 [85; 43930; 725636; 1696226; 725636; 43930; 85]] in
  let ssum := mkPart
    [Term_init 365369837332500 (-12) 1 [3; 10; 3];
     Term_init 2 4 9 [1; 6; 1];
     Term_init (-12) 2 7 [165; 2597; 2597; 165];
     Term_init (-325641566250) (-10) 1 [631; 4729; 4729; 631];
     Term_init (-1891890) (-2) 3 [5; 342; 1909; 1909; 342; 5];
     Term_init (-20270250) (-6) 1 [3230; 125051; 611383; 611383; 125051; 3230];
     Term_init 425675250 (-8) 1 [17697; 279340; 637158; 279340; 17697];
     Term_init 6 0 5 [45045; 1457940; 3816038; 1457940; 45045];
     Term_init 810810 (-4) 1 [85; 17395; 214701; 464310; 214701; 17395; 85]] in
  let sdiff := mkPart
    [Term_init 8 4 10 [1; 1];
     Term_init 182684918666250 (-12) 0 [1; 15; 15; 1];
     Term_init (-48) 2 8 [255; 871; 255];
     Term_init 1800 0 6 [1309; 10061; 10061; 1309];
     Term_init (-3783780) (-2) 4 [32; 511; 1170; 511; 32];
     Term_init (-651283132500) (-10) 0 [37; 1153; 2980; 1153; 37];
     Term_init 851350500 (-8) 0 [697; 46965; 260146; 260146; 46965; 697];
     Term_init 810810 (-4) 2 [2020; 78421; 383895; 383895; 78421; 2020];
     Term_init (-40540500) (-6) 0 [68; 13886; 171043; 369670; 171043; 13886; 68]] in
  KnlInt_init n l csum cdiff ssum sdiff.

(* n=6, l=10 *)
Definition knl_6_10 : KnlInt T :=
  let n := 6 in
  let l := 10 in
  let csum := mkPart
    [Term_init 228624086213523000 (-15) 1 [1; 1];
     Term_init (-2) 3 9 [55; 338; 55];
     Term_init 440 1 7 [117; 1892; 1892; 117];
     Term_init (-231400896977250) (-13) 1 [711; 2410; 711];
     Term_init 151966064250 (-11) 1 [91903; 731341; 731341; 91903];
     Term_init (-12870) (-1) 5 [441; 15348; 41030; 15348; 441];
     Term_init 90090 (-3) 3 [2040; 160491; 949025; 949025; 160491; 2040];
     Term_init 8108100 (-7) 1 [216087; 9860255; 51638802; 51638802; 9860255; 216087];
     Term_init (-482431950) (-9) 1 [630515; 11102120; 26156106; 11102120; 630515];
     Term_init (-270270) (-5) 1 [4845; 1243210; 17052484; 38054674; 17052484; 1243210; 4845]] in
  let cdiff := mkPart
    [Term_init (-448) 3 10 [1; 1];
     Term_init 57156021553380750 (-15) 0 [1; 6; 1];
     Term_init (-925603587909000) (-13) 0 [29; 450; 450; 29];
     Term_init (-25740) (-1) 6 [2009; 16143; 16143; 2009];
     Term_init 2 1 8 [161865; 560254; 161865];
     Term_init (-964863900) (-9) 0 [22534; 1787775; 10595035; 10595035; 1787775; 22534];
     Term_init 90090 (-3) 4 [28380; 497591; 1171170; 497591; 28380];
     Term_init (-1081080) (-5) 2 [32895; 1493435; 7805639; 7805639; 1493435; 32895];
     Term_init 21709437750 (-11) 0 [71117; 2442851; 6497480; 2442851; 71117];
     Term_init 4054050 (-7) 0 [15827; 4095912; 56365545; 125906008; 56365545; 4095912; 15827]] in
  let ssum := mkPart
    [Term_init (-8) 4 11 [1; 1];
     Term_init 114312043106761500 (-14) 1 [3; 10; 3];
     Term_init (-77133632325750) (-12) 1 [853; 6331; 6331; 853];
     Term_init (-2200) 0 7 [2457; 18553; 18553; 2457];
     Term_init 4 2 9 [4565; 15522; 4565];
     Term_init 1261260 (-2) 5 [363; 5469; 12320; 5469; 363];
     Term_init (-270270) (-4) 3 [44540; 1445229; 6646695; 6646695; 1445229; 44540];
     Term_init (-137837700) (-8) 1 [211983; 6922955; 31917318; 31917318; 6922955; 211983];
     Term_init 8683775100 (-10) 1 [302860; 4556895; 10257402; 4556895; 302860];
     Term_init 2702700 (-6) 1 [26163; 2653768; 26982649; 55545304; 26982649; 2653768; 26163]] in
  let sdiff := mkPart
    [Term_init (-2) 4 10 [1; 6; 1];
     Term_init 57156021553380750 (-14) 0 [1; 15; 15; 1];
     Term_init 2 2 8 [1485; 23167; 23167; 1485];
     Term_init 630630 (-2) 4 [60; 3743; 20181; 20181; 3743; 60];
     Term_init (-77133632325750) (-12) 0 [101; 3098; 7970; 3098; 101];
     Term_init 4341887550 (-10) 0 [50027; 3121140; 16805745; 16805745; 3121140; 50027];
     Term_init (-2) 0 6 [315315; 9921780; 25747834; 9921780; 315315];
     Term_init 1351350 (-6) 0 [969; 769029; 21161479; 92938987; 92938987; 21161479; 769029; 969];
     Term_init (-270270) (-4) 2 [2295; 342890; 3799599; 7983360; 3799599; 342890; 2295];
     Term_init (-68918850) (-8) 0 [21698; 3276813; 36459210; 76693582; 36459210; 3276813; 21698]] in
  KnlInt_init n l csum cdiff ssum sdiff.

(** [integrals = {}] followed by the assignments
    [integrals[(n, l)] = KnlInt(...)], in source order. *)
Definition integrals : gmap (Z * Z) (KnlInt T) :=
  let d := ∅ in
  let d := <[(4, 0) := knl_4_0]> d in
  let d := <[(4, 1) := knl_4_1]> d in
  let d := <[(4, 2) := knl_4_2]> d in
  let d := <[(4, 3) := knl_4_3]> d in
  let d := <[(4, 4) := knl_4_4]> d in
  let d := <[(4, 5) := knl_4_5]> d in
  let d := <[(4, 6) := knl_4_6]> d in
  let d := <[(4, 7) := knl_4_7]> d in
  let d := <[(4, 8) := knl_4_8]> d in
  let d := <[(4, 9) := knl_4_9]> d in
  let d := <[(4, 10) := knl_4_10]> d in
  let d := <[(6, 0) := knl_6_0]> d in
  let d := <[(6, 1) := knl_6_1]> d in
  let d := <[(6, 2) := knl_6_2]> d in
  let d := <[(6, 3) := knl_6_3]> d in
  let d := <[(6, 4) := knl_6_4]> d in
  let d := <[(6, 5) := knl_6_5]> d in
  let d := <[(6, 6) := knl_6_6]> d in
  let d := <[(6, 7) := knl_6_7]> d in
  let d := <[(6, 8) := knl_6_8]> d in
  let d := <[(6, 9) := knl_6_9]> d in
  let d := <[(6, 10) := knl_6_10]> d in
  d.

Definition integrals_getitem (key : Z * Z) : M T (KnlInt T) :=
  match integrals !! key with
  | Some k => ret k
  | None => raise KeyError
  end.

(** *** [Compare], analytic half (lines 373-376): the value [an1]

    The timing, the quadrature call and the printing that follow in the
    source use [an1] and do not change it. *)
Definition Compare (x1 x2 : T) (n l : Z) (a b : T) : exn + T :=
  let poly := Polynomial_init a b in
  snd ((do k1 <- integrals_getitem (n, l) ;
        do result1 <- KnlInt_evaluate k1 x1 ;
        do k2 <- integrals_getitem (n, l) ;
        do result2 <- KnlInt_evaluate k2 x2 ;
        ret (result2 - result1)) poly).

End Kint.

(** ** Invariants and the vocabulary of the specification *)

Section Vocabulary.
Context {T : Type} `{Mpf T}.
Local Open Scope mp_scope.

(** Two contexts for the same pair [(a, b)]. *)
Definition same_ctx (p q : Polynomial T) : Prop :=
  poly_a p = poly_a q /\ poly_b p = poly_b q /\
  poly_a2 p = poly_a2 q /\ poly_b2 p = poly_b2 q.

(** Every stored entry is what [_make_list] computes for its key. *)
Definition cache_ok (p : Polynomial T) : Prop :=
  forall n l, poly_stored p !! n = Some l -> _make_list p n = inr l.

(** A computation whose outcome does not depend on what the cache
    already holds, and which keeps the cache valid. *)
Record stable {A} (m : M T A) : Prop := mk_stable {
  stable_spec : forall p, cache_ok p ->
    cache_ok (fst (m p)) /\ same_ctx p (fst (m p)) /\
    forall q, cache_ok q -> same_ctx p q -> snd (m q) = snd (m p)
}.

(** [x^k] for a natural exponent, as the product [x * (x * ... * 1)]. *)
Fixpoint mp_power (x : T) (k : nat) : T :=
  match k with
  | O => mpf 1
  | S k' => x * mp_power x k'
  end.

(** The [k]-th cross monomial of degree [n]: [a^(2(n-1-k)) b^(2k)]. *)
Definition monomial (a b : T) (n k : nat) : T :=
  mp_power a (2 * (n - 1 - k)) * mp_power b (2 * k).

(** [f 0 + f 1 + ... + f n], from [f 0] and left to right: the order in
    which [np.sum] adds the entries of an object array. *)
Fixpoint np_Sigma (n : nat) (f : nat -> T) : T :=
  match n with
  | O => f 0%nat
  | S n' => np_Sigma n' f + f (S n')
  end.

(** The context stores the squares of its two parameters. *)
Definition squares_ok (p : Polynomial T) : Prop :=
  poly_a2 p = poly_a p * poly_a p /\ poly_b2 p = poly_b p * poly_b p.

(** [acc * v * ... * v] with [j] factors [v]. *)
Fixpoint lpow (acc v : T) (j : nat) : T :=
  match j with
  | O => acc
  | S j' => lpow acc v j' * v
  end.

(** The guard of line 136 as a predicate on an evaluation: the four
    components are computed and [prec_remaining < 13]. *)
Definition insufficient_precision (k : KnlInt T) (x : T) (p : Polynomial T) : bool :=
  match snd (KnlInt_termlist k x p) with
  | inr termlist => mp_lt (prec_remaining termlist) (mpf 13)
  | inl _ => false
  end.

(** Every term of the expression carries at least one coefficient. *)
Definition Part_nonempty (pt : Part T) : Prop :=
  Forall (fun t => term_coeffs t <> []) (part_terms pt).

Definition KnlInt_nonempty (k : KnlInt T) : Prop :=
  Part_nonempty (knl_csum k) /\ Part_nonempty (knl_cdiff k) /\
  Part_nonempty (knl_ssum k) /\ Part_nonempty (knl_sdiff k).

(** What holds of the entry stored under the key [(n, l)]. *)
Definition entry_ok (key : Z * Z) (k : KnlInt T) : Prop :=
  knl_n k = mpf (fst key) /\ knl_l k = mpf (snd key) /\
  (fst key = 4 \/ fst key = 6) /\ 0 <= snd key <= 10 /\
  KnlInt_nonempty k.

(** A computation that can only fail with [ZeroDivisionError]. *)
Definition only_zde {A} (m : M T A) : Prop :=
  forall p e, cache_ok p -> snd (m p) = inl e -> e = ZeroDivisionError.

(** A computation that returns a value from every valid context for the
    pair [(a, b)] of [p]. *)
Definition returns_from {A} (p : Polynomial T) (m : M T A) : Prop :=
  forall q, cache_ok q -> same_ctx p q -> exists v, snd (m q) = inr v.
End Vocabulary.

(** ** Vocabulary of the further properties

    What an evaluation does to the cache, which degrees an expression
    asks for, the antiderivative as a function of [(a, b, x)], and the
    exchange of [a] and [b]. *)

Section Observations.
Context {T : Type} `{Mpf T}.
Local Open Scope mp_scope.

(** [q] is a context for the same [(a, b)] that holds every entry of
    [p], unchanged. *)
Definition cache_le (p q : Polynomial T) : Prop :=
  same_ctx p q /\
  forall n l, poly_stored p !! n = Some l -> poly_stored q !! n = Some l.

(** A computation that keeps every cache entry and stores new lists
    only under keys in [P]. *)
Record adds {A} (P : nat -> Prop) (m : M T A) : Prop := mk_adds {
  adds_spec : forall p,
    cache_le p (fst (m p)) /\
    forall n l, poly_stored (fst (m p)) !! n = Some l ->
                poly_stored p !! n = Some l \/ P n
}.

(** The degrees an expression asks for: the lengths of its coefficient
    lists. *)
Definition Part_degrees (pt : Part T) (n : nat) : Prop :=
  exists t, In t (part_terms pt) /\ n = length (term_coeffs t).

Definition KnlInt_degrees (k : KnlInt T) (n : nat) : Prop :=
  Part_degrees (knl_csum k) n \/ Part_degrees (knl_cdiff k) n \/
  Part_degrees (knl_ssum k) n \/ Part_degrees (knl_sdiff k) n.

(** The value a computation returned, or [d] when it raised. *)
Definition result_or {A} (d : A) (r : exn + A) : A :=
  match r with inl _ => d | inr v => v end.

(** All the terms of an expression, part after part. *)
Definition KnlInt_terms (k : KnlInt T) : list (Term T) :=
  part_terms (knl_csum k) ++ part_terms (knl_cdiff k) ++
  part_terms (knl_ssum k) ++ part_terms (knl_sdiff k).

(** The antiderivative at [x], from a fresh context for [(a, b)]. *)
Definition antiderivative (k : KnlInt T) (a b x : T) : exn + T :=
  snd (KnlInt_evaluate k x (Polynomial_init a b)).

(** [q] is a context for [(b, a)] when [p] is one for [(a, b)]. *)
Definition swapped (p q : Polynomial T) : Prop :=
  poly_a q = poly_b p /\ poly_b q = poly_a p /\
  poly_a2 q = poly_b2 p /\ poly_b2 q = poly_a2 p.

(** Every coefficient list reads the same in both directions. *)
Definition Part_palindromic (pt : Part T) : Prop :=
  Forall (fun t => reverse (term_coeffs t) = term_coeffs t) (part_terms pt).

Definition KnlInt_palindromic (k : KnlInt T) : Prop :=
  Part_palindromic (knl_csum k) /\ Part_palindromic (knl_cdiff k) /\
  Part_palindromic (knl_ssum k) /\ Part_palindromic (knl_sdiff k).
End Observations.

(** ** An executable instance: exact rational arithmetic

    [Qc] carries the field operations exactly; cosine and sine are Taylor
    polynomials, [log10] is exact on its integer part and linear in
    between, and a fractional exponent is rounded down.  The instance
    runs the definitions above on concrete inputs. *)

Module QcNum.
Local Open Scope Qc_scope.

Definition of_Z (z : Z) : Qc := Q2Qc (inject_Z z).

Definition is_zero (x : Qc) : bool := (Qnum (this x) =? 0)%Z.

Definition div (x y : Qc) : option Qc :=
  if is_zero y then None else Some (x / y).

Definition powZ (x : Qc) (k : Z) : Qc :=
  if (0 <=? k)%Z then x ^ Z.to_nat k else / (x ^ Z.to_nat (- k)).

Definition pow (x e : Qc) : option Qc :=
  let k := Qfloor (this e) in
  if is_zero x
  then (if (0 <? Qnum (this e))%Z then Some 0
        else if is_zero e then Some 1 else None)
  else Some (powZ x k).

(** [1 - x2/(i(i+1)) (1 - x2/((i+2)(i+3)) (...))], [k] factors deep. *)
Fixpoint taylor (x2 : Qc) (k : nat) (i : Z) : Qc :=
  match k with
  | O => 1
  | S k' => 1 - x2 / of_Z (i * (i + 1)) * taylor x2 k' (i + 2)
  end.

Definition cos (x : Qc) : Qc := taylor (x * x) 3 1.
Definition sin (x : Qc) : Qc := x * taylor (x * x) 3 2.

Definition fabs (x : Qc) : Qc := Q2Qc (Qabs (this x)).

(** [10^d <= x], for [0 < x]. *)
Definition le_pow10 (d : Z) (x : Q) : bool :=
  if (0 <=? d)%Z
  then (10 ^ d * Zpos (Qden x) <=? Qnum x)%Z
  else (Zpos (Qden x) <=? Qnum x * 10 ^ (- d))%Z.

Fixpoint mag_adjust (fuel : nat) (x : Q) (d : Z) : Z :=
  match fuel with
  | O => d
  | S f =>
      if negb (le_pow10 d x) then mag_adjust f x (d - 1)
      else if le_pow10 (d + 1) x then mag_adjust f x (d + 1)
      else d
  end.

(** For [0 < x]: the [d] with [10^d <= x < 10^(d+1)], searched from the
    estimate [log2 x * log10 2]. *)
Definition magnitude (x : Q) : Z :=
  let e := (Z.log2 (Qnum x) - Z.log2 (Zpos (Qden x)))%Z in
  mag_adjust 4 x (e * 30103 / 100000)%Z.

(** [mp.log10(0)] is [-inf]; the instance takes a bound far below every
    magnitude it meets. *)
Definition minus_infinity : Qc := of_Z (- 10 ^ 9).

Definition log10 (x : Qc) : Qc :=
  if (Qnum (this x) <=? 0)%Z then minus_infinity
  else let d := magnitude (this x) in
       of_Z d + (x / powZ (of_Z 10) d - 1) / of_Z 9.

Definition floor (x : Qc) : Qc := of_Z (Qfloor (this x)).

Definition lt (x y : Qc) : bool := negb (Qle_bool (this y) (this x)).
Definition eq (x y : Qc) : bool := Qeq_bool (this x) (this y).

#[export] Instance Qc_Mpf : Mpf Qc := {|
  mpf := of_Z;
  mpf_quarter := Q2Qc (1 # 4);
  mp_add := Qcplus;
  mp_sub := Qcminus;
  mp_mul := Qcmult;
  mp_div := div;
  mp_pow := pow;
  mp_cos := cos;
  mp_sin := sin;
  mp_fabs := fabs;
  mp_log10 := log10;
  mp_floor := floor;
  mp_lt := lt;
  mp_eq := eq
|}.

(** The number a computation returned (0 if it raised). *)
Definition value (r : exn + Qc) : Qc :=
  match r with inl _ => 0 | inr v => v end.
End QcNum.

(** * Facts about the monad *)

Section Monad.
Context {T : Type}.

Lemma bind_inr {A B} (m : M T A) (k : A -> M T B) p p' v :
  m p = (p', inr v) -> bind m k p = k v p'.
Proof. intros E. unfold bind. now rewrite E. Qed.

Lemma bind_inl {A B} (m : M T A) (k : A -> M T B) p p' e :
  m p = (p', inl e) -> bind m k p = (p', inl e).
Proof. intros E. unfold bind. now rewrite E. Qed.

Lemma arith_Some {A} (o : option A) v (p : Polynomial T) :
  o = Some v -> arith o p = (p, inr v).
Proof. now intros ->. Qed.

Lemma arith_None {A} (p : Polynomial T) :
  arith (@None A) p = (p, inl ZeroDivisionError).
Proof. reflexivity. Qed.
End Monad.

(** * The cache invariant and cache-insensitive computations *)

Section Cache.
Context {T : Type} `{Mpf T}.
Local Open Scope mp_scope.

Lemma same_ctx_refl (p : Polynomial T) : same_ctx p p.
Proof. repeat split. Qed.

Lemma same_ctx_sym (p q : Polynomial T) : same_ctx p q -> same_ctx q p.
Proof. intros (?&?&?&?). repeat split; congruence. Qed.

Lemma same_ctx_trans (p q r : Polynomial T) :
  same_ctx p q -> same_ctx q r -> same_ctx p r.
Proof. intros (?&?&?&?) (?&?&?&?). repeat split; congruence. Qed.

Lemma _make_list_same p q n : same_ctx p q -> _make_list p n = _make_list q n.
Proof. intros (_&_&E2&E3). unfold _make_list. now rewrite E2, E3. Qed.

Lemma cache_ok_init a b : cache_ok (Polynomial_init a b).
Proof. intros n l. cbn. now rewrite lookup_empty. Qed.

Lemma get_list_value p n : cache_ok p -> snd (get_list n p) = _make_list p n.
Proof.
  intros Hp. unfold get_list.
  destruct (poly_stored p !! n) as [l|] eqn:E.
  - cbn. symmetry. now apply Hp.
  - destruct (_make_list p n); reflexivity.
Qed.

Lemma get_list_ctx p n : same_ctx p (fst (get_list n p)).
Proof.
  unfold get_list.
  destruct (poly_stored p !! n); [apply same_ctx_refl|].
  destruct (_make_list p n); repeat split.
Qed.

Lemma get_list_cache_ok p n : cache_ok p -> cache_ok (fst (get_list n p)).
Proof.
  intros Hp. unfold get_list.
  destruct (poly_stored p !! n) as [l|] eqn:E; [exact Hp|].
  destruct (_make_list p n) as [e|l] eqn:E'; [exact Hp|].
  intros k l'. cbn -[_make_list].
  destruct (decide (n = k)) as [->|Hne].
  - rewrite lookup_insert_eq. intros [= <-]. exact E'.
  - rewrite lookup_insert_ne by done. intros Hk. apply Hp in Hk. exact Hk.
Qed.

Lemma stable_get_list n : stable (get_list n).
Proof.
  constructor. intros p Hp. split; [now apply get_list_cache_ok|].
  split; [apply get_list_ctx|].
  intros q Hq Hpq. rewrite !get_list_value by done.
  symmetry. now apply _make_list_same.
Qed.

Lemma stable_ret {A} (x : A) : stable (ret x).
Proof. constructor. intros p Hp. repeat split; auto. Qed.

Lemma stable_raise {A} e : stable (@raise T A e).
Proof. constructor. intros p Hp. repeat split; auto. Qed.

Lemma stable_arith {A} (o : option A) : stable (arith o).
Proof. destruct o; [apply stable_ret | apply stable_raise]. Qed.

Lemma stable_attr_a : stable (attr poly_a).
Proof.
  constructor. intros p Hp. split; [exact Hp|]. split; [apply same_ctx_refl|].
  intros q _ (E&_). cbn. now rewrite E.
Qed.

Lemma stable_attr_b : stable (attr poly_b).
Proof.
  constructor. intros p Hp. split; [exact Hp|]. split; [apply same_ctx_refl|].
  intros q _ (_&E&_). cbn. now rewrite E.
Qed.

Lemma stable_bind {A B} (m : M T A) (k : A -> M T B) :
  stable m -> (forall x, stable (k x)) -> stable (bind m k).
Proof.
  intros Hm Hk. constructor. intros p Hp.
  destruct (stable_spec Hm Hp) as (Hc & Hs & Hv).
  unfold bind.
  destruct (m p) as [p' [e|v]] eqn:E; cbn in Hc, Hs, Hv.
  - split; [exact Hc|]. split; [exact Hs|].
    intros q Hq Hpq. specialize (Hv q Hq Hpq).
    destruct (m q) as [q' [e'|v']]; cbn in Hv |- *; congruence.
  - destruct (stable_spec (Hk v) Hc) as (Hc' & Hs' & Hv').
    split; [exact Hc'|]. split; [now apply same_ctx_trans with p'|].
    intros q Hq Hpq. specialize (Hv q Hq Hpq).
    destruct (stable_spec Hm Hq) as (Hqc & Hqs & _).
    destruct (m q) as [q' [e'|v']]; cbn in Hv, Hqc, Hqs |- *; [congruence|].
    injection Hv as ->. apply Hv'; [exact Hqc|].
    apply same_ctx_trans with p; [now apply same_ctx_sym|].
    now apply same_ctx_trans with q.
Qed.

Lemma stable_mapM {A B} (f : A -> M T B) l :
  (forall x, stable (f x)) -> stable (mapM f l).
Proof.
  intros Hf. induction l as [|x l IH]; cbn [mapM].
  - apply stable_ret.
  - apply stable_bind; [apply Hf|]. intros y.
    apply stable_bind; [exact IH|]. intros ys. apply stable_ret.
Qed.

Create HintDb stable.
Local Hint Resolve stable_ret stable_raise stable_arith stable_attr_a
  stable_attr_b stable_get_list : stable.

Ltac stable_tac :=
  repeat first
    [ apply stable_bind; [|intros ?]
    | apply stable_mapM; intros ?
    | solve [auto with stable] ].

Lemma stable_eval_poly coeff : stable (eval_poly coeff).
Proof. unfold eval_poly. stable_tac. Qed.

Lemma stable_Term_evaluate t x : stable (Term_evaluate t x).
Proof.
  unfold Term_evaluate.
  apply stable_bind; [apply stable_arith|intros xn].
  apply stable_bind; [|intros abm].
  - destruct (negb _); stable_tac.
  - apply stable_bind; [apply stable_eval_poly|intros w]. apply stable_ret.
Qed.

Lemma stable_Part_evaluate pt x : stable (Part_evaluate pt x).
Proof.
  unfold Part_evaluate. apply stable_bind; [|intros vs; apply stable_ret].
  apply stable_mapM. intros t. apply stable_Term_evaluate.
Qed.

Lemma stable_KnlInt_termlist k x : stable (KnlInt_termlist k x).
Proof.
  unfold KnlInt_termlist.
  do 4 (apply stable_bind; [apply stable_Part_evaluate|intros ?]).
  do 11 (apply stable_bind; [auto with stable|intros ?]).
  apply stable_mapM. intros term.
  apply stable_bind; [apply stable_arith|intros q; apply stable_ret].
Qed.

Lemma stable_KnlInt_evaluate k x : stable (KnlInt_evaluate k x).
Proof.
  unfold KnlInt_evaluate. apply stable_bind; [apply stable_KnlInt_termlist|].
  intros tl. destruct (mp_lt _ _); [apply stable_raise | apply stable_ret].
Qed.

(** Running a stable computation whose value is known. *)
Lemma stable_run {A} (m : M T A) p r :
  stable m -> cache_ok p -> snd (m p) = r ->
  exists p', m p = (p', r) /\ cache_ok p' /\ same_ctx p p'.
Proof.
  intros Hm Hp E. destruct (stable_spec Hm Hp) as (Hc & Hs & _).
  exists (fst (m p)). split; [|auto].
  rewrite <- E. now destruct (m p).
Qed.

Lemma stable_transport {A} (m : M T A) p q :
  stable m -> cache_ok p -> cache_ok q -> same_ctx p q ->
  snd (m q) = snd (m p).
Proof. intros Hm Hp Hq Hpq. now apply (stable_spec Hm Hp). Qed.
End Cache.

(** * Monomials, weighted sums and terms *)

Section Monomials.
Context {T : Type} `{Mpf T}.
Local Open Scope mp_scope.

Lemma lpow_shift (acc v : T) j : lpow (acc * v) v j = lpow acc v (S j).
Proof. induction j as [|j IH]; cbn; [reflexivity|]. now rewrite IH. Qed.

Lemma cumprod_from_length (acc : T) l : length (cumprod_from acc l) = length l.
Proof. revert acc. induction l as [|x l IH]; intros acc; cbn; [|rewrite IH]; reflexivity. Qed.

Lemma np_cumprod_length (l : list T) : length (np_cumprod l) = length l.
Proof. destruct l; cbn; [|rewrite cumprod_from_length]; reflexivity. Qed.

Lemma cumprod_from_replicate (acc v : T) n j :
  (j < n)%nat -> cumprod_from acc (replicate n v) !! j = Some (lpow acc v (S j)).
Proof.
  revert acc j. induction n as [|n IH]; intros acc j Hj; [lia|].
  destruct j as [|j]; cbn [replicate cumprod_from]; [reflexivity|].
  change ((?x :: ?l) !! S j) with (l !! j).
  rewrite IH by lia. now rewrite lpow_shift.
Qed.

Lemma np_cumprod_replicate (x v : T) n j :
  (j <= n)%nat -> np_cumprod (x :: replicate n v) !! j = Some (lpow x v j).
Proof.
  intros Hj. destruct j as [|j]; [reflexivity|].
  cbn [np_cumprod]. change ((?y :: ?l) !! S j) with (l !! j).
  apply cumprod_from_replicate. lia.
Qed.

(** What [_make_list] builds, before any algebra. *)
Lemma _make_list_zero p : _make_list p 0 = inl IndexError.
Proof. reflexivity. Qed.

Lemma _make_list_succ p n :
  exists m, _make_list p (S n) = inr m /\ length m = S n /\
    forall k, (k <= n)%nat ->
      m !! k = Some (lpow (mpf 1) (poly_a2 p) (n - k) * lpow (mpf 1) (poly_b2 p) k).
Proof.
  unfold _make_list, np_full. cbn [replicate setitem0].
  eexists. split; [reflexivity|]. split.
  - rewrite length_zip_with, length_reverse, !np_cumprod_length.
    cbn [length]. rewrite !length_replicate. lia.
  - intros k Hk. rewrite lookup_zip_with. unfold np_flipud.
    rewrite reverse_lookup
      by (rewrite np_cumprod_length; cbn; rewrite length_replicate; lia).
    rewrite np_cumprod_length. cbn [length]. rewrite length_replicate.
    replace (S n - S k)%nat with (n - k)%nat by lia.
    rewrite !np_cumprod_replicate by lia. reflexivity.
Qed.

Section Units.
Hypothesis mul_1_1 : mpf 1 * mpf 1 = mpf 1 :> T.
Hypothesis mul_1_prod : forall x y : T, mpf 1 * (x * y) = x * y.
Hypothesis mul_prod_1 : forall x y : T, x * y * mpf 1 = x * y.

Lemma lpow_mul_1 (v : T) j : lpow (mpf 1) v j * mpf 1 = lpow (mpf 1) v j.
Proof. destruct j; cbn [lpow]; [apply mul_1_1|apply mul_prod_1]. Qed.

Lemma mul_1_lpow (v : T) j : mpf 1 * lpow (mpf 1) v j = lpow (mpf 1) v j.
Proof. destruct j; cbn [lpow]; [apply mul_1_1|apply mul_1_prod]. Qed.

(** C4: for a context that stores the squares of its [a] and [b] and
    whose cache is valid, and for [n >= 1], [get_list n] returns a
    sequence [m] of exactly [n] entries with
    [m[k] = a^(2(n-1-k)) * b^(2k)] for every [k < n], each power
    [x^(2j)] being what the code computes for it: the cumulative product
    [1 * (x*x) * ... * (x*x)] of [j] factors [x*x], taken from the left;
    in particular [m[0] = a^(2(n-1))], [m[n-1] = b^(2(n-1))], and for
    [n = 1] the sequence is [[1]].  Nothing is asked of multiplication
    but that the factor [1] leaves [1] and a product as they are. *)
Theorem get_list_monomials p n :
  squares_ok p -> cache_ok p -> (1 <= n)%nat ->
  exists m, snd (get_list n p) = inr m /\ length m = n /\
    (forall k, (k < n)%nat ->
       m !! k = Some (lpow (mpf 1) (poly_a p * poly_a p) (n - 1 - k) *
                      lpow (mpf 1) (poly_b p * poly_b p) k)) /\
    m !! 0%nat = Some (lpow (mpf 1) (poly_a p * poly_a p) (n - 1)) /\
    m !! (n - 1)%nat = Some (lpow (mpf 1) (poly_b p * poly_b p) (n - 1)) /\
    (n = 1%nat -> m = [mpf 1]).
Proof.
  intros [Ea Eb] Hp Hn. destruct n as [|n]; [lia|].
  destruct (_make_list_succ p n) as (m & Em & Hlen & Hm).
  rewrite Ea, Eb in Hm.
  exists m. rewrite get_list_value by exact Hp.
  split; [exact Em|]. split; [exact Hlen|].
  replace (S n - 1)%nat with n by lia.
  assert (H0 : m !! 0%nat = Some (lpow (mpf 1) (poly_a p * poly_a p) n)).
  { rewrite Hm by lia. rewrite Nat.sub_0_r.
    change (lpow (mpf 1) (poly_b p * poly_b p) 0) with (mpf 1 : T).
    now rewrite lpow_mul_1. }
  assert (Hlast : m !! n = Some (lpow (mpf 1) (poly_b p * poly_b p) n)).
  { rewrite Hm by lia. rewrite Nat.sub_diag.
    change (lpow (mpf 1) (poly_a p * poly_a p) 0) with (mpf 1 : T).
    now rewrite mul_1_lpow. }
  split; [|split; [exact H0|split; [exact Hlast|]]].
  - intros k Hk. rewrite Hm by lia. reflexivity.
  - intros [= ->]. destruct m as [|y [|z m]]; cbn in Hlen; try lia.
    cbn in H0. now injection H0 as ->.
Qed.
End Units.

(** In exact arithmetic -- multiplication commutative and associative,
    which the rounded products of [mpmath] are not -- the cumulative
    products are the powers of [a] and [b] themselves. *)
Section Exact.
Hypothesis mul_comm : forall x y : T, x * y = y * x.
Hypothesis mul_assoc : forall x y z : T, x * (y * z) = x * y * z.

Lemma lpow_square (a : T) j : lpow (mpf 1) (a * a) j = mp_power a (2 * j).
Proof.
  induction j as [|j IH]; [reflexivity|].
  replace (2 * S j)%nat with (S (S (2 * j))) by lia.
  cbn [lpow mp_power]. rewrite IH.
  rewrite (mul_comm (mp_power a (2 * j)) (a * a)).
  now rewrite mul_assoc.
Qed.

Lemma _make_list_monomials p n :
  squares_ok p ->
  exists m, _make_list p (S n) = inr m /\ length m = S n /\
    forall k, (k <= n)%nat ->
      m !! k = Some (monomial (poly_a p) (poly_b p) (S n) k).
Proof.
  intros [Ea Eb]. destruct (_make_list_succ p n) as (m & Em & Hlen & Hm).
  exists m. split; [exact Em|]. split; [exact Hlen|].
  intros k Hk. rewrite Hm by exact Hk. unfold monomial.
  rewrite Ea, Eb, !lpow_square. do 3 f_equal. lia.
Qed.
End Exact.

(** *** Sums *)

Lemma fold_left_add_snoc (l : list T) acc x :
  fold_left mp_add (l ++ [x]) acc = fold_left mp_add l acc + x.
Proof. now rewrite fold_left_app. Qed.

Lemma np_Sigma_ext n (f g : nat -> T) :
  (forall k, (k <= n)%nat -> f k = g k) -> np_Sigma n f = np_Sigma n g.
Proof.
  induction n as [|n IH]; intros E; cbn; [apply E; lia|].
  rewrite IH by (intros; apply E; lia). now rewrite E by lia.
Qed.

(** [np.sum] of a non-empty array, entry by entry. *)
Lemma np_sum_np_Sigma (x : T) r :
  np_sum (x :: r) = np_Sigma (length r) (fun k => nth k (x :: r) (mpf 0)).
Proof.
  induction r as [|y r IH] using rev_ind; [reflexivity|].
  cbn [np_sum] in *. rewrite fold_left_add_snoc, IH.
  rewrite length_app. cbn [length]. rewrite Nat.add_1_r. cbn [np_Sigma].
  f_equal.
  - apply np_Sigma_ext. intros k Hk.
    change (x :: r ++ [y]) with ((x :: r) ++ [y]).
    rewrite app_nth1 by (cbn [length]; lia). reflexivity.
  - cbn [nth]. rewrite app_nth2, Nat.sub_diag by lia. reflexivity.
Qed.

Lemma nth_zip_with_mul (l m : list T) k x y :
  l !! k = Some x -> m !! k = Some y ->
  nth k (zip_with mp_mul l m) (mpf 0) = x * y.
Proof.
  intros El Em. apply nth_lookup_Some with (d := mpf 0).
  rewrite lookup_zip_with, El, Em. reflexivity.
Qed.

Lemma snd_bind_ret {A B} (m : M T A) (f : A -> B) p :
  snd (bind m (fun w => ret (f w)) p) =
    match snd (m p) with inl e => inl e | inr w => inr (f w) end.
Proof. unfold bind. now destruct (m p) as [p' [e|w]]. Qed.

Lemma eval_poly_value coeff p :
  cache_ok p ->
  snd (eval_poly coeff p) =
    match _make_list p (length coeff) with
    | inl e => inl e
    | inr m => inr (np_sum (zip_with mp_mul coeff m))
    end.
Proof.
  intros Hp. unfold eval_poly. rewrite snd_bind_ret.
  now rewrite get_list_value by exact Hp.
Qed.

(** At the empty list [apoly[0] = mp.mpf(1)] is out of range: no value
    is returned. *)
Lemma eval_poly_nil p : cache_ok p -> snd (eval_poly [] p) = inl IndexError.
Proof.
  intros Hp. unfold eval_poly, bind. cbn [length].
  pose proof (get_list_value 0 Hp) as E. rewrite _make_list_zero in E.
  destruct (get_list 0 p) as [p' r]. cbn in E. now subst r.
Qed.

(** C8, as the code has it: for a non-empty coefficient list, with [m]
    the sequence of monomials of degree [len(coeffs)] that [get_list]
    returns, [eval_poly coeffs] returns the sum over [k] of
    [coeffs[k] * m[k]], added in the order of [k]; for the empty list it
    raises [IndexError].  No law of the arithmetic is used. *)
Theorem eval_poly_weighted_sum p coeffs :
  cache_ok p ->
  (coeffs <> [] ->
   exists m, snd (get_list (length coeffs) p) = inr m /\
     length m = length coeffs /\
     (forall k, (k < length coeffs)%nat ->
        m !! k = Some (lpow (mpf 1) (poly_a2 p) (length coeffs - 1 - k) *
                       lpow (mpf 1) (poly_b2 p) k)) /\
     snd (eval_poly coeffs p) =
       inr (np_Sigma (length coeffs - 1)
              (fun k => nth k coeffs (mpf 0) * nth k m (mpf 0)))) /\
  snd (eval_poly [] p) = inl IndexError.
Proof.
  intros Hp. split; [|now apply eval_poly_nil]. intros Hne.
  destruct coeffs as [|c0 cs]; [congruence|].
  destruct (_make_list_succ p (length cs)) as (m & Em & Hm_len & Hm).
  exists m. rewrite get_list_value, eval_poly_value by exact Hp.
  cbn [length]. rewrite Em.
  split; [reflexivity|]. split; [exact Hm_len|]. split.
  - intros k Hk. rewrite Hm by lia.
    replace (S (length cs) - 1 - k)%nat with (length cs - k)%nat by lia.
    reflexivity.
  - f_equal. destruct m as [|m0 ms]; [discriminate|].
    cbn [zip_with]. rewrite np_sum_np_Sigma.
    cbn [length] in Hm_len.
    rewrite length_zip_with, Nat.min_l by lia.
    replace (S (length cs) - 1)%nat with (length cs) by lia.
    apply np_Sigma_ext. intros k Hk.
    destruct (lookup_lt_is_Some_2 (c0 :: cs) k ltac:(cbn [length]; lia)) as [c Hc].
    destruct (lookup_lt_is_Some_2 (m0 :: ms) k ltac:(cbn [length]; lia)) as [y Hy].
    change (c0 * m0 :: zip_with mp_mul cs ms)
      with (zip_with mp_mul (c0 :: cs) (m0 :: ms)).
    rewrite (nth_zip_with_mul _ _ _ Hc Hy).
    now rewrite (nth_lookup_Some _ _ (mpf 0) _ Hc), (nth_lookup_Some _ _ (mpf 0) _ Hy).
Qed.

Section TermFacts.
Hypothesis pow_pos :
  forall x e : T, mp_lt (mpf 0) x = true -> is_Some (mp_pow x e).

(** C9: for a term [(c, n, m, coeffs)], a context and [x > 0], where
    [w] is the value of the weighted sum of [coeffs]: [x^n] is
    defined, and the term evaluates to [c * x^n * (a*b)^m * w]; when
    [m = 0] the factor is the exact [1], whatever the power operation
    would give. *)
Theorem Term_evaluate_product t x p w :
  cache_ok p -> mp_lt (mpf 0) x = true ->
  snd (eval_poly (term_coeffs t) p) = inr w ->
  exists xn, mp_pow x (term_n t) = Some xn /\
    (mp_eq (term_m t) (mpf 0) = true ->
       snd (Term_evaluate t x p) = inr (term_c t * xn * mpf 1 * w)) /\
    (forall abm, mp_eq (term_m t) (mpf 0) = false ->
       mp_pow (poly_a p * poly_b p) (term_m t) = Some abm ->
       snd (Term_evaluate t x p) = inr (term_c t * xn * abm * w)).
Proof.
  intros Hp Hx Hw. destruct (pow_pos x (term_n t) Hx) as [xn Exn].
  exists xn. split; [exact Exn|].
  destruct (stable_run (stable_eval_poly (term_coeffs t)) Hp Hw) as (p' & Ew & _).
  unfold Term_evaluate. erewrite bind_inr by (apply arith_Some; exact Exn).
  split.
  - intros ->. cbn [negb]. unfold bind at 1. cbn [ret].
    erewrite bind_inr by exact Ew. reflexivity.
  - intros abm -> Eabm. cbn [negb].
    unfold bind at 1 2 3. cbn [attr]. erewrite arith_Some by exact Eabm.
    erewrite bind_inr by exact Ew. reflexivity.
Qed.
End TermFacts.
End Monomials.

(** * Integral expressions and the definite integral *)

Section Evaluate.
Context {T : Type} `{Mpf T}.
Local Open Scope mp_scope.

Lemma bind_step {A} (m : M T A) p v :
  stable m -> cache_ok p -> snd (m p) = inr v ->
  exists p', cache_ok p' /\ same_ctx p p' /\
    forall B (k : A -> M T B), bind m k p = k v p'.
Proof.
  intros Hm Hp E. destruct (stable_run Hm Hp E) as (p' & Em & Hc & Hs).
  exists p'. split; [exact Hc|]. split; [exact Hs|].
  intros B k. unfold bind. now rewrite Em.
Qed.

Lemma bind_fail {A B} (m : M T A) (k : A -> M T B) p e :
  snd (m p) = inl e -> snd (bind m k p) = inl e.
Proof. unfold bind. destruct (m p) as [p' [e'|v]]; cbn; congruence. Qed.

Lemma bind_attr {A B} (f : Polynomial T -> A) (k : A -> M T B) p :
  bind (attr f) k p = k (f p) p.
Proof. reflexivity. Qed.

Lemma bind_arith {A B} (o : option A) (k : A -> M T B) p v :
  o = Some v -> bind (arith o) k p = k v p.
Proof. now intros ->. Qed.

Lemma bind_arith_None {A B} (o : option A) (k : A -> M T B) p :
  o = None -> bind (arith o) k p = (p, inl ZeroDivisionError).
Proof. now intros ->. Qed.

Lemma bind_ret {A B} (x : A) (k : A -> M T B) p : bind (ret x) k p = k x p.
Proof. reflexivity. Qed.

(** The four components, given the values they are made of. *)
Lemma KnlInt_termlist_components k x p Sc Dc Ss Ds abl dcp dcm dsp dsm T1 T2 T3 T4 q :
  let a := poly_a p in
  let b := poly_b p in
  cache_ok p ->
  snd (Part_evaluate (knl_csum k) x p) = inr Sc ->
  snd (Part_evaluate (knl_cdiff k) x p) = inr Dc ->
  snd (Part_evaluate (knl_ssum k) x p) = inr Ss ->
  snd (Part_evaluate (knl_sdiff k) x p) = inr Ds ->
  mp_pow (a * b) (knl_l k + mpf 1) = Some abl ->
  mp_pow (a + b) (knl_n k - mpf 2) = Some dcp ->
  mp_div (mp_cos (x * (a + b)) * (Sc + Dc)) dcp = Some T1 ->
  mp_pow (a - b) (knl_n k - mpf 2) = Some dcm ->
  mp_div (mp_cos (x * (a - b)) * (Sc - Dc)) dcm = Some T2 ->
  mp_pow (a + b) (knl_n k - mpf 1) = Some dsp ->
  mp_div (mp_sin (x * (a + b)) * (Ss + Ds)) dsp = Some T3 ->
  mp_pow (a - b) (knl_n k - mpf 1) = Some dsm ->
  mp_div (mp_sin (x * (a - b)) * (Ss - Ds)) dsm = Some T4 ->
  mp_div mpf_quarter abl = Some q ->
  exists p', KnlInt_termlist k x p = (p', inr [q * T1; q * T2; q * T3; q * T4]).
Proof.
  intros a b Hp HSc HDc HSs HDs Habl Hdcp HT1 Hdcm HT2 Hdsp HT3 Hdsm HT4 Hq.
  unfold KnlInt_termlist.
  destruct (bind_step (stable_Part_evaluate _ x) Hp HSc) as (p1 & Hp1 & Hs1 & ->).
  rewrite <- (stable_transport (stable_Part_evaluate _ x) Hp Hp1 Hs1) in HDc.
  destruct (bind_step (stable_Part_evaluate _ x) Hp1 HDc) as (p2 & Hp2 & Hs2 & ->).
  pose proof (same_ctx_trans Hs1 Hs2) as Hs12.
  rewrite <- (stable_transport (stable_Part_evaluate _ x) Hp Hp2 Hs12) in HSs.
  destruct (bind_step (stable_Part_evaluate _ x) Hp2 HSs) as (p3 & Hp3 & Hs3 & ->).
  pose proof (same_ctx_trans Hs12 Hs3) as Hs13.
  rewrite <- (stable_transport (stable_Part_evaluate _ x) Hp Hp3 Hs13) in HDs.
  destruct (bind_step (stable_Part_evaluate _ x) Hp3 HDs) as (p4 & Hp4 & Hs4 & ->).
  destruct (same_ctx_trans Hs13 Hs4) as (Ea & Eb & _).
  exists p4. rewrite !bind_attr. rewrite <- Ea, <- Eb. fold a b.
  rewrite (bind_arith _ _ Habl), (bind_arith _ _ Hdcp), (bind_arith _ _ HT1),
    (bind_arith _ _ Hdcm), (bind_arith _ _ HT2), (bind_arith _ _ Hdsp),
    (bind_arith _ _ HT3), (bind_arith _ _ Hdsm), (bind_arith _ _ HT4).
  cbn [mapM]. rewrite Hq. reflexivity.
Qed.

(** C1: when the four parts have the values [Sc], [Dc], [Ss], [Ds] at
    [x], the four components
    [T1 = cos((a+b)x)(Sc+Dc)/(a+b)^(n-2)],
    [T2 = cos((a-b)x)(Sc-Dc)/(a-b)^(n-2)],
    [T3 = sin((a+b)x)(Ss+Ds)/(a+b)^(n-1)],
    [T4 = sin((a-b)x)(Ss-Ds)/(a-b)^(n-1)] and the factor
    [q = 0.25/(a*b)^(l+1)] are defined, and the precision check passes,
    the evaluation returns [q*T1 + q*T2 + q*T3 + q*T4]. *)
Theorem KnlInt_evaluate_sum k x p Sc Dc Ss Ds abl dcp dcm dsp dsm T1 T2 T3 T4 q :
  let a := poly_a p in
  let b := poly_b p in
  cache_ok p ->
  snd (Part_evaluate (knl_csum k) x p) = inr Sc ->
  snd (Part_evaluate (knl_cdiff k) x p) = inr Dc ->
  snd (Part_evaluate (knl_ssum k) x p) = inr Ss ->
  snd (Part_evaluate (knl_sdiff k) x p) = inr Ds ->
  mp_pow (a * b) (knl_l k + mpf 1) = Some abl ->
  mp_pow (a + b) (knl_n k - mpf 2) = Some dcp ->
  mp_div (mp_cos (x * (a + b)) * (Sc + Dc)) dcp = Some T1 ->
  mp_pow (a - b) (knl_n k - mpf 2) = Some dcm ->
  mp_div (mp_cos (x * (a - b)) * (Sc - Dc)) dcm = Some T2 ->
  mp_pow (a + b) (knl_n k - mpf 1) = Some dsp ->
  mp_div (mp_sin (x * (a + b)) * (Ss + Ds)) dsp = Some T3 ->
  mp_pow (a - b) (knl_n k - mpf 1) = Some dsm ->
  mp_div (mp_sin (x * (a - b)) * (Ss - Ds)) dsm = Some T4 ->
  mp_div mpf_quarter abl = Some q ->
  mp_lt (prec_remaining [q * T1; q * T2; q * T3; q * T4]) (mpf 13) = false ->
  snd (KnlInt_evaluate k x p) =
    inr (mpf 0 + q * T1 + q * T2 + q * T3 + q * T4).
Proof.
  intros a b Hp HSc HDc HSs HDs Habl Hdcp HT1 Hdcm HT2 Hdsp HT3 Hdsm HT4 Hq Hprec.
  destruct (KnlInt_termlist_components k x Hp HSc HDc HSs HDs Habl Hdcp HT1
              Hdcm HT2 Hdsp HT3 Hdsm HT4 Hq) as (p' & E).
  unfold KnlInt_evaluate, bind. rewrite E, Hprec. reflexivity.
Qed.

(** C2: when the remaining precision is below 13 the evaluation stops
    without a numeric result, but the exception is [NameError] for the
    name [sys], not the exit with the message "Insufficient precision"
    that line 137 spells out. *)
Theorem KnlInt_evaluate_guard k x p :
  insufficient_precision k x p = true ->
  snd (KnlInt_evaluate k x p) = inl (NameError "sys") /\
  snd (KnlInt_evaluate k x p) <> inl (SystemExit "Insufficient precision").
Proof.
  unfold insufficient_precision, KnlInt_evaluate, bind.
  destruct (KnlInt_termlist k x p) as [p' [e|tl]]; cbn [snd]; [discriminate|].
  intros ->. cbn. split; [reflexivity|discriminate].
Qed.

(** C10: the outcome of an evaluation is the same from any two valid
    contexts for the same [(a, b)], whatever their caches hold; and
    evaluating again on the context an evaluation leaves behind repeats
    its outcome. *)
Theorem KnlInt_evaluate_deterministic k x p q :
  cache_ok p -> cache_ok q -> same_ctx p q ->
  snd (KnlInt_evaluate k x p) = snd (KnlInt_evaluate k x q) /\
  snd (KnlInt_evaluate k x (fst (KnlInt_evaluate k x p))) =
    snd (KnlInt_evaluate k x p).
Proof.
  intros Hp Hq Hpq. pose proof (stable_KnlInt_evaluate k x) as Hst.
  split.
  - symmetry. now apply stable_transport.
  - destruct (stable_spec Hst Hp) as (Hc & Hs & _).
    now apply stable_transport.
Qed.

(** C7: for a key [(n, l)] without an entry in [integrals], the
    definite integral raises [KeyError]. *)
Theorem Compare_KeyError x1 x2 n l a b :
  integrals !! (n, l) = None -> Compare x1 x2 n l a b = inl KeyError.
Proof. intros E. unfold Compare, integrals_getitem, bind. now rewrite E. Qed.

(** C5: for a table entry [(n, l)], when the expression evaluates to
    [v1] at [x1] and to [v2] at [x2], each from a fresh context for
    [(a, b)], the definite integral, which shares one context between
    the two bounds, is [v2 - v1]. *)
Theorem Compare_difference x1 x2 n l a b k v1 v2 :
  integrals !! (n, l) = Some k ->
  snd (KnlInt_evaluate k x1 (Polynomial_init a b)) = inr v1 ->
  snd (KnlInt_evaluate k x2 (Polynomial_init a b)) = inr v2 ->
  Compare x1 x2 n l a b = inr (v2 - v1).
Proof.
  intros Ek E1 E2. unfold Compare, integrals_getitem. rewrite Ek.
  rewrite bind_ret.
  destruct (bind_step (stable_KnlInt_evaluate k x1) (@cache_ok_init _ _ a b) E1)
    as (p1 & Hp1 & Hs1 & ->).
  rewrite bind_ret.
  rewrite <- (stable_transport (stable_KnlInt_evaluate k x2)
                (@cache_ok_init _ _ a b) Hp1 Hs1) in E2.
  destruct (bind_step (stable_KnlInt_evaluate k x2) Hp1 E2) as (p2 & _ & _ & ->).
  reflexivity.
Qed.
End Evaluate.

(** * The table, and equal scale parameters *)

Section Table.
Context {T : Type} `{Mpf T}.
Local Open Scope mp_scope.

Lemma integrals_entries : map_Forall entry_ok (integrals (T := T)).
Proof.
  unfold integrals.
  repeat (apply map_Forall_insert_2;
          [ unfold entry_ok, KnlInt_nonempty, Part_nonempty; cbn;
            repeat split; try lia; auto;
            repeat constructor; discriminate | ]).
  apply map_Forall_empty.
Qed.

Lemma integrals_entry n l k :
  integrals !! (n, l) = Some k -> entry_ok (n, l) k.
Proof. intros E. exact (integrals_entries _ E). Qed.

(** C6, as the table has it: the lookup succeeds for [n] in {4, 6} and
    [0 <= l <= 10]; no key with [n = 2] is present. *)
Theorem integrals_lookup_supported n l :
  (n = 4 \/ n = 6) -> 0 <= l <= 10 ->
  is_Some (integrals (T := T) !! (n, l)) /\
  integrals (T := T) !! (2, l) = None.
Proof.
  intros Hn Hl. split.
  - assert (Hc : l = 0 \/ l = 1 \/ l = 2 \/ l = 3 \/ l = 4 \/ l = 5 \/
                 l = 6 \/ l = 7 \/ l = 8 \/ l = 9 \/ l = 10) by lia.
    destruct Hn as [-> | ->];
      repeat (destruct Hc as [-> | Hc]);
      try subst l;
      match goal with
      | |- is_Some ?o => destruct o eqn:E; [eauto | vm_compute in E; discriminate]
      end.
  - destruct (integrals (T := T) !! (2, l)) as [k|] eqn:E; [|reflexivity].
    apply integrals_entry in E. destruct E as (_ & _ & [E | E] & _); discriminate.
Qed.
End Table.

Section Degenerate.
Context {T : Type} `{Mpf T}.
Local Open Scope mp_scope.

Lemma only_zde_ret {A} (x : A) : only_zde (@ret T A x).
Proof. intros p e _. discriminate. Qed.

Lemma only_zde_arith {A} (o : option A) : only_zde (@arith T A o).
Proof. intros p e _. destruct o; cbn; congruence. Qed.

Lemma only_zde_attr {A} (f : Polynomial T -> A) : only_zde (attr f).
Proof. intros p e _. discriminate. Qed.

Lemma only_zde_bind {A B} (m : M T A) (k : A -> M T B) :
  stable m -> only_zde m -> (forall v, only_zde (k v)) -> only_zde (bind m k).
Proof.
  intros Hst Hm Hk p e Hp E. unfold bind in E.
  destruct (stable_spec Hst Hp) as (Hc & _).
  destruct (m p) as [p' [e'|v]] eqn:Em; cbn in E, Hc.
  - injection E as <-. apply (Hm p e' Hp). now rewrite Em.
  - now apply (Hk v p' e Hc).
Qed.

Lemma only_zde_mapM {A B} (f : A -> M T B) l :
  (forall x, stable (f x)) ->
  Forall (fun x => only_zde (f x)) l -> only_zde (mapM f l).
Proof.
  intros Hs. induction 1 as [|x l Hz Hl IH]; cbn [mapM]; [apply only_zde_ret|].
  apply only_zde_bind; [apply Hs|exact Hz|]. intros y.
  apply only_zde_bind; [|exact IH|intros; apply only_zde_ret].
  now apply stable_mapM.
Qed.

Lemma only_zde_get_list n : (1 <= n)%nat -> only_zde (get_list n).
Proof.
  intros Hn p e Hp E. rewrite get_list_value in E by exact Hp.
  destruct n as [|n]; [lia|].
  destruct (_make_list_succ p n) as (m & Em & _). congruence.
Qed.

Lemma only_zde_eval_poly coeffs : coeffs <> [] -> only_zde (eval_poly coeffs).
Proof.
  intros Hne. unfold eval_poly.
  apply only_zde_bind; [apply stable_get_list| |intros; apply only_zde_ret].
  apply only_zde_get_list. destruct coeffs; [congruence|cbn; lia].
Qed.

Lemma only_zde_Term_evaluate t x :
  term_coeffs t <> [] -> only_zde (Term_evaluate t x).
Proof.
  intros Hne. unfold Term_evaluate.
  apply only_zde_bind; [apply stable_arith|apply only_zde_arith|intros xn].
  apply only_zde_bind.
  - destruct (negb _); [|apply stable_ret].
    apply stable_bind; [apply stable_attr_a|intros a].
    apply stable_bind; [apply stable_attr_b|intros b]. apply stable_arith.
  - destruct (negb _); [|apply only_zde_ret].
    apply only_zde_bind; [apply stable_attr_a|apply only_zde_attr|intros a].
    apply only_zde_bind; [apply stable_attr_b|apply only_zde_attr|intros b].
    apply only_zde_arith.
  - intros abm.
    apply only_zde_bind; [apply stable_eval_poly| |intros; apply only_zde_ret].
    now apply only_zde_eval_poly.
Qed.

Lemma only_zde_Part_evaluate pt x :
  Part_nonempty pt -> only_zde (Part_evaluate pt x).
Proof.
  intros Hne. unfold Part_evaluate.
  apply only_zde_bind; [| |intros; apply only_zde_ret].
  - apply stable_mapM. intros t. apply stable_Term_evaluate.
  - apply only_zde_mapM; [intros t; apply stable_Term_evaluate|].
    eapply Forall_impl; [exact Hne|]. intros t Ht. now apply only_zde_Term_evaluate.
Qed.

(** One of the four [Part] evaluations in front of a computation that
    fails with [ZeroDivisionError] in every context for [(a, b)]. *)
Lemma part_then_zde {B} pt x (k : T -> M T B) p :
  Part_nonempty pt -> cache_ok p ->
  (forall v q, cache_ok q -> same_ctx p q -> snd (k v q) = inl ZeroDivisionError) ->
  snd (bind (Part_evaluate pt x) k p) = inl ZeroDivisionError.
Proof.
  intros Hne Hp Hk.
  destruct (snd (Part_evaluate pt x p)) as [e|v] eqn:E.
  - rewrite (only_zde_Part_evaluate x Hne Hp E) in E. now apply bind_fail.
  - destruct (bind_step (stable_Part_evaluate pt x) Hp E) as (q & Hq & Hs & ->).
    now apply Hk.
Qed.

Section Laws.
Hypothesis div_zero : forall x : T, mp_div x (mpf 0) = None.

Lemma KnlInt_termlist_degenerate k x p :
  KnlInt_nonempty k -> cache_ok p ->
  poly_a p - poly_b p = mpf 0 ->
  mp_pow (mpf 0) (knl_n k - mpf 2) = Some (mpf 0) ->
  snd (KnlInt_termlist k x p) = inl ZeroDivisionError.
Proof.
  intros (N1 & N2 & N3 & N4) Hp Hab Hpow. unfold KnlInt_termlist.
  apply part_then_zde; [exact N1|exact Hp|]. intros Sc p1 Hp1 Hs1.
  apply part_then_zde; [exact N2|exact Hp1|]. intros Dc p2 Hp2 Hs2.
  apply part_then_zde; [exact N3|exact Hp2|]. intros Ss p3 Hp3 Hs3.
  apply part_then_zde; [exact N4|exact Hp3|]. intros Ds p4 Hp4 Hs4.
  destruct (same_ctx_trans (same_ctx_trans (same_ctx_trans Hs1 Hs2) Hs3) Hs4)
    as (Ea & Eb & _).
  rewrite !bind_attr, <- Ea, <- Eb, Hab, Hpow.
  destruct (mp_pow (poly_a p * poly_b p) (knl_l k + mpf 1)) as [abl|];
    [|reflexivity].
  rewrite (bind_arith _ _ eq_refl).
  destruct (mp_pow (poly_a p + poly_b p) (knl_n k - mpf 2)) as [dcp|];
    [|reflexivity].
  rewrite (bind_arith _ _ eq_refl).
  destruct (mp_div _ dcp) as [cpterm|]; [|reflexivity].
  rewrite (bind_arith _ _ eq_refl), (bind_arith _ _ eq_refl).
  now rewrite div_zero.
Qed.

Hypothesis mpf_sub : forall i j : Z, mpf i - mpf j = mpf (i - j).
Hypothesis pow_zero_pos :
  forall k : Z, 0 < k -> mp_pow (mpf 0) (mpf k) = Some (mpf 0).

(** C3: for a table entry and equal scale parameters [a = b] (so that
    [a - b] is 0), the definite integral raises [ZeroDivisionError],
    whatever the bounds. *)
Theorem Compare_degenerate x1 x2 n l a k :
  integrals !! (n, l) = Some k ->
  a - a = mpf 0 ->
  Compare x1 x2 n l a a = inl ZeroDivisionError.
Proof.
  intros Ek Ha. destruct (integrals_entry _ _ Ek) as (En & _ & Hn & _ & Hne).
  cbn [fst] in En, Hn.
  unfold Compare, integrals_getitem. rewrite Ek, bind_ret.
  apply bind_fail. unfold KnlInt_evaluate. apply bind_fail.
  apply KnlInt_termlist_degenerate; [exact Hne|apply cache_ok_init|exact Ha|].
  rewrite En, mpf_sub. apply pow_zero_pos. lia.
Qed.
End Laws.
End Degenerate.

(** * Non-degenerate inputs reach the precision check *)

Section Defined.
Context {T : Type} `{Mpf T}.
Local Open Scope mp_scope.

Lemma returns_ret {A} p (x : A) : returns_from p (ret x).
Proof. intros q _ _. now exists x. Qed.

Lemma returns_arith {A} p (o : option A) : is_Some o -> returns_from p (arith o).
Proof. intros [v ->] q _ _. now exists v. Qed.

Lemma returns_bind {A B} p (m : M T A) (k : A -> M T B) :
  stable m -> returns_from p m -> (forall v, returns_from p (k v)) ->
  returns_from p (bind m k).
Proof.
  intros Hst Hm Hk q Hq Hpq. destruct (Hm q Hq Hpq) as [v Ev].
  destruct (bind_step Hst Hq Ev) as (q' & Hq' & Hs & ->).
  apply Hk; [exact Hq'|]. now apply same_ctx_trans with q.
Qed.

Lemma returns_mapM {A B} p (f : A -> M T B) l :
  (forall x, stable (f x)) ->
  Forall (fun x => returns_from p (f x)) l -> returns_from p (mapM f l).
Proof.
  intros Hs. induction 1 as [|x l Hx Hl IH]; cbn [mapM]; [apply returns_ret|].
  apply returns_bind; [apply Hs|exact Hx|]. intros y.
  apply returns_bind; [now apply stable_mapM|exact IH|]. intros ys. apply returns_ret.
Qed.

Lemma returns_eval_poly p coeffs : coeffs <> [] -> returns_from p (eval_poly coeffs).
Proof.
  intros Hne q Hq _.
  destruct (snd (eval_poly coeffs q)) as [e|v] eqn:E; [|now exists v].
  pose proof (only_zde_eval_poly Hne Hq E) as ->.
  unfold eval_poly, bind in E. pose proof (get_list_value (length coeffs) Hq) as Eg.
  destruct coeffs as [|c cs]; [congruence|]. cbn [length] in *.
  destruct (_make_list_succ q (length cs)) as (m & Em & _).
  rewrite Em in Eg. destruct (get_list (S (length cs)) q) as [q' r].
  cbn in Eg. subst r. discriminate.
Qed.

Section Laws.
Hypothesis lt_nonzero : forall x : T, mp_lt (mpf 0) x = true -> x <> mpf 0.
Hypothesis pow_nonzero :
  forall x e : T, x <> mpf 0 -> exists v, mp_pow x e = Some v /\ v <> mpf 0.
Hypothesis div_nonzero : forall x y : T, y <> mpf 0 -> is_Some (mp_div x y).

Lemma pow_is_Some (x e : T) : x <> mpf 0 -> is_Some (mp_pow x e).
Proof. intros Hx. destruct (pow_nonzero e Hx) as (v & -> & _). eauto. Qed.

Lemma returns_Term_evaluate p t x :
  term_coeffs t <> [] -> mp_lt (mpf 0) x = true ->
  poly_a p * poly_b p <> mpf 0 ->
  returns_from p (Term_evaluate t x).
Proof.
  intros Hne Hx Hab. unfold Term_evaluate.
  apply returns_bind; [apply stable_arith| |intros xn].
  { apply returns_arith, pow_is_Some. now apply lt_nonzero. }
  apply returns_bind; [| |intros abm].
  - destruct (negb _); [|apply stable_ret].
    apply stable_bind; [apply stable_attr_a|intros a].
    apply stable_bind; [apply stable_attr_b|intros b]. apply stable_arith.
  - destruct (negb _); [|apply returns_ret].
    intros q Hq (Ea & Eb & _). rewrite !bind_attr, <- Ea, <- Eb.
    destruct (pow_is_Some (term_m t) Hab) as [v ->]. now exists v.
  - apply returns_bind; [apply stable_eval_poly| |intros w; apply returns_ret].
    now apply returns_eval_poly.
Qed.

Lemma returns_Part_evaluate p pt x :
  Part_nonempty pt -> mp_lt (mpf 0) x = true ->
  poly_a p * poly_b p <> mpf 0 ->
  returns_from p (Part_evaluate pt x).
Proof.
  intros Hne Hx Hab. unfold Part_evaluate.
  apply returns_bind; [| |intros vs; apply returns_ret].
  - apply stable_mapM. intros t. apply stable_Term_evaluate.
  - apply returns_mapM; [intros t; apply stable_Term_evaluate|].
    eapply Forall_impl; [exact Hne|]. intros t Ht. now apply returns_Term_evaluate.
Qed.

(** For an expression without empty coefficient lists, [x > 0] and
    [a*b], [a+b], [a-b] all different from 0, the four components are
    computed: the evaluation reaches the precision check. *)
Lemma KnlInt_termlist_defined k x p :
  KnlInt_nonempty k -> cache_ok p -> mp_lt (mpf 0) x = true ->
  poly_a p * poly_b p <> mpf 0 ->
  poly_a p + poly_b p <> mpf 0 ->
  poly_a p - poly_b p <> mpf 0 ->
  exists termlist, snd (KnlInt_termlist k x p) = inr termlist.
Proof.
  intros (N1 & N2 & N3 & N4) Hp Hx Hab Hapb Hamb.
  cut (returns_from p (KnlInt_termlist k x)).
  { intros Hr. apply Hr; [exact Hp|apply same_ctx_refl]. }
  unfold KnlInt_termlist.
  apply returns_bind; [apply stable_Part_evaluate|now apply returns_Part_evaluate|intros Sc].
  apply returns_bind; [apply stable_Part_evaluate|now apply returns_Part_evaluate|intros Dc].
  apply returns_bind; [apply stable_Part_evaluate|now apply returns_Part_evaluate|intros Ss].
  apply returns_bind; [apply stable_Part_evaluate|now apply returns_Part_evaluate|intros Ds].
  intros q Hq (Ea & Eb & _). rewrite !bind_attr, <- Ea, <- Eb.
  destruct (pow_nonzero (knl_l k + mpf 1) Hab) as (abl & Eabl & Habl).
  destruct (pow_nonzero (knl_n k - mpf 2) Hapb) as (dcp & Edcp & Hdcp).
  destruct (pow_nonzero (knl_n k - mpf 2) Hamb) as (dcm & Edcm & Hdcm).
  destruct (pow_nonzero (knl_n k - mpf 1) Hapb) as (dsp & Edsp & Hdsp).
  destruct (pow_nonzero (knl_n k - mpf 1) Hamb) as (dsm & Edsm & Hdsm).
  rewrite (bind_arith _ _ Eabl), (bind_arith _ _ Edcp).
  destruct (div_nonzero (mp_cos (x * (poly_a p + poly_b p)) * (Sc + Dc)) Hdcp) as [T1 E1].
  rewrite (bind_arith _ _ E1), (bind_arith _ _ Edcm).
  destruct (div_nonzero (mp_cos (x * (poly_a p - poly_b p)) * (Sc - Dc)) Hdcm) as [T2 E2].
  rewrite (bind_arith _ _ E2), (bind_arith _ _ Edsp).
  destruct (div_nonzero (mp_sin (x * (poly_a p + poly_b p)) * (Ss + Ds)) Hdsp) as [T3 E3].
  rewrite (bind_arith _ _ E3), (bind_arith _ _ Edsm).
  destruct (div_nonzero (mp_sin (x * (poly_a p - poly_b p)) * (Ss - Ds)) Hdsm) as [T4 E4].
  rewrite (bind_arith _ _ E4).
  destruct (div_nonzero mpf_quarter Habl) as [qq Eq].
  cbn [mapM]. rewrite Eq. eexists. reflexivity.
Qed.
End Laws.
End Defined.

(** * Further properties of the evaluation *)

(** ** What an evaluation does to the cache *)

Section CacheGrowth.
Context {T : Type} `{Mpf T}.
Local Open Scope mp_scope.

Lemma cache_le_refl (p : Polynomial T) : cache_le p p.
Proof. split; [apply same_ctx_refl|auto]. Qed.

Lemma cache_le_trans (p q r : Polynomial T) :
  cache_le p q -> cache_le q r -> cache_le p r.
Proof.
  intros [S1 L1] [S2 L2]. split; [now apply same_ctx_trans with q|auto].
Qed.

(** The two outcomes of [get_list]. *)
Lemma get_list_cases n p :
  (exists l p', get_list n p = (p', inr l) /\
     poly_stored p' !! n = Some l /\
     get_list n p' = (p', inr l) /\
     (forall k, k <> n -> poly_stored p' !! k = poly_stored p !! k) /\
     (poly_stored p !! n <> None -> p' = p) /\
     same_ctx p p') \/
  (get_list n p = (p, inl IndexError) /\ n = 0%nat /\ poly_stored p !! n = None).
Proof.
  destruct (poly_stored p !! n) as [l|] eqn:E.
  - left. exists l, p. unfold get_list. rewrite E.
    repeat split; auto; apply same_ctx_refl.
  - destruct n as [|n].
    + right. unfold get_list. rewrite E. repeat split.
    + left. destruct (_make_list_succ p n) as (m & Em & _).
      unfold get_list at 1. rewrite E, Em.
      eexists m, _. split; [reflexivity|]. cbn [poly_stored].
      split; [apply lookup_insert_eq|].
      split; [unfold get_list; cbn [poly_stored]; now rewrite lookup_insert_eq|].
      split; [intros k Hk; now apply lookup_insert_ne|].
      split; [congruence|repeat split].
Qed.

Lemma adds_get_list n : adds (fun k => k = n) (get_list n).
Proof.
  constructor. intros p.
  destruct (get_list_cases n p) as [(l & p' & -> & Hn & _ & Hk & Hsame & Hs)|(-> & _)];
    cbn [fst].
  - split.
    + split; [exact Hs|]. intros k m Em.
      destruct (decide (k = n)) as [->|Hne]; [|now rewrite Hk].
      rewrite Hsame by congruence. exact Em.
    + intros k m Em. destruct (decide (k = n)) as [->|Hne]; [now right|].
      left. now rewrite <- Hk.
  - split; [apply cache_le_refl|auto].
Qed.

(** X1: a list returned by [get_list n] is stored under [n]; asking again
    returns the same list and leaves the context as it is; no other key
    is touched. *)
Theorem get_list_caches n p p' l :
  get_list n p = (p', inr l) ->
  poly_stored p' !! n = Some l /\
  get_list n p' = (p', inr l) /\
  (forall k, k <> n -> poly_stored p' !! k = poly_stored p !! k) /\
  same_ctx p p'.
Proof.
  intros E.
  destruct (get_list_cases n p) as [(l0 & p0 & E0 & Hn & Hagain & Hk & _ & Hs)|(E0 & _)];
    rewrite E0 in E; [|discriminate].
  injection E as -> ->. auto.
Qed.

(** X2: [get_list] fails only for the degree 0 with nothing stored under
    it, with [IndexError], and then the context is unchanged. *)
Theorem get_list_failure n p p' e :
  get_list n p = (p', inl e) ->
  n = 0%nat /\ poly_stored p !! 0%nat = None /\ e = IndexError /\ p' = p.
Proof.
  intros E.
  destruct (get_list_cases n p) as [(l0 & p0 & E0 & _)|(E0 & Hn & Hs)];
    rewrite E0 in E; [discriminate|].
  injection E as -> ->. subst n. auto.
Qed.

Lemma adds_weaken {A} (P Q : nat -> Prop) (m : M T A) :
  (forall n, P n -> Q n) -> adds P m -> adds Q m.
Proof.
  intros HPQ Hm. constructor. intros p.
  destruct (adds_spec Hm p) as [Hle Hnew]. split; [exact Hle|].
  intros n l E. destruct (Hnew n l E); auto.
Qed.

Lemma adds_pure {A} (P : nat -> Prop) (r : exn + A) :
  adds P (fun p : Polynomial T => (p, r)).
Proof. constructor. intros p. split; [apply cache_le_refl|auto]. Qed.

Lemma adds_ret {A} P (x : A) : adds P (@ret T A x).
Proof. apply adds_pure. Qed.

Lemma adds_arith {A} P (o : option A) : adds P (@arith T A o).
Proof. destruct o; apply adds_pure. Qed.

Lemma adds_attr {A} P (f : Polynomial T -> A) : adds P (attr f).
Proof. constructor. intros p. split; [apply cache_le_refl|auto]. Qed.

Lemma adds_bind {A B} P (m : M T A) (k : A -> M T B) :
  adds P m -> (forall v, adds P (k v)) -> adds P (bind m k).
Proof.
  intros Hm Hk. constructor. intros p.
  destruct (adds_spec Hm p) as [Hle Hnew]. unfold bind.
  destruct (m p) as [p' [e|v]]; cbn [fst] in *; [auto|].
  destruct (adds_spec (Hk v) p') as [Hle' Hnew']. split.
  - now apply cache_le_trans with p'.
  - intros n l E. destruct (Hnew' n l E) as [E'|HP]; [|now right].
    exact (Hnew n l E').
Qed.

Lemma adds_mapM {A B} P (f : A -> M T B) l :
  Forall (fun x => adds P (f x)) l -> adds P (mapM f l).
Proof.
  induction 1 as [|x l Hx Hl IH]; cbn [mapM]; [apply adds_ret|].
  apply adds_bind; [exact Hx|]. intros y.
  apply adds_bind; [exact IH|]. intros ys. apply adds_ret.
Qed.

Lemma adds_eval_poly coeff : adds (fun n => n = length coeff) (eval_poly coeff).
Proof.
  unfold eval_poly. apply adds_bind; [apply adds_get_list|].
  intros l. apply adds_ret.
Qed.

Lemma adds_Term_evaluate t x :
  adds (fun n => n = length (term_coeffs t)) (Term_evaluate t x).
Proof.
  unfold Term_evaluate. apply adds_bind; [apply adds_arith|intros xn].
  apply adds_bind; [|intros abm].
  - destruct (negb _); [|apply adds_ret].
    apply adds_bind; [apply adds_attr|intros a].
    apply adds_bind; [apply adds_attr|intros b]. apply adds_arith.
  - apply adds_bind; [apply adds_eval_poly|intros w; apply adds_ret].
Qed.

Lemma adds_Part_evaluate pt x : adds (Part_degrees pt) (Part_evaluate pt x).
Proof.
  unfold Part_evaluate. apply adds_bind; [|intros vs; apply adds_ret].
  apply adds_mapM. apply Forall_forall. intros t Ht.
  apply adds_weaken with (P := fun n => n = length (term_coeffs t));
    [|apply adds_Term_evaluate].
  intros n ->. exists t. split; [|reflexivity].
  now apply list_elem_of_In.
Qed.

Lemma adds_KnlInt_evaluate k x : adds (KnlInt_degrees k) (KnlInt_evaluate k x).
Proof.
  unfold KnlInt_evaluate. apply adds_bind.
  - unfold KnlInt_termlist.
    apply adds_bind; [eapply adds_weaken; [|apply adds_Part_evaluate];
                      unfold KnlInt_degrees; tauto|intros Sc].
    apply adds_bind; [eapply adds_weaken; [|apply adds_Part_evaluate];
                      unfold KnlInt_degrees; tauto|intros Dc].
    apply adds_bind; [eapply adds_weaken; [|apply adds_Part_evaluate];
                      unfold KnlInt_degrees; tauto|intros Ss].
    apply adds_bind; [eapply adds_weaken; [|apply adds_Part_evaluate];
                      unfold KnlInt_degrees; tauto|intros Ds].
    apply adds_bind; [apply adds_attr|intros a].
    apply adds_bind; [apply adds_attr|intros b].
    do 9 (apply adds_bind; [apply adds_arith|intros ?]).
    apply adds_mapM. apply Forall_forall. intros term _.
    apply adds_bind; [apply adds_arith|intros q; apply adds_ret].
  - intros tl. destruct (mp_lt _ _); [apply adds_pure|apply adds_ret].
Qed.

(** X3: an evaluation keeps [a], [b] and their squares, keeps every list
    the cache already held, and stores new lists only under the lengths
    of the coefficient lists of the expression. *)
Theorem KnlInt_evaluate_cache_growth k x p :
  same_ctx p (fst (KnlInt_evaluate k x p)) /\
  (forall n l, poly_stored p !! n = Some l ->
               poly_stored (fst (KnlInt_evaluate k x p)) !! n = Some l) /\
  (forall n l, poly_stored (fst (KnlInt_evaluate k x p)) !! n = Some l ->
               poly_stored p !! n = Some l \/ KnlInt_degrees k n).
Proof.
  destruct (adds_spec (adds_KnlInt_evaluate k x) p) as [[Hs Hle] Hnew]. auto.
Qed.

Lemma cache_ok_entry p n l :
  cache_ok p -> poly_stored p !! n = Some l ->
  (1 <= n)%nat /\ length l = n.
Proof.
  intros Hp E. apply Hp in E. destruct n as [|n]; [discriminate|].
  destruct (_make_list_succ p n) as (m & Em & Hlen & _).
  rewrite Em in E. injection E as <-. split; [lia|exact Hlen].
Qed.

(** X4: after an evaluation from a valid context, the context is valid
    again: every stored list is the list of monomials of its key, the key
    is at least 1 and is the length of the list. *)
Theorem KnlInt_evaluate_cache_ok k x p :
  cache_ok p ->
  cache_ok (fst (KnlInt_evaluate k x p)) /\
  forall n l, poly_stored (fst (KnlInt_evaluate k x p)) !! n = Some l ->
    _make_list p n = inr l /\ (1 <= n)%nat /\ length l = n.
Proof.
  intros Hp.
  destruct (stable_spec (stable_KnlInt_evaluate k x) Hp) as (Hc & Hs & _).
  split; [exact Hc|]. intros n l E. split.
  - rewrite (_make_list_same n Hs). now apply Hc.
  - exact (cache_ok_entry _ Hc E).
Qed.
End CacheGrowth.

(** ** Terms and parts: values and failures *)

Section Parts.
Context {T : Type} `{Mpf T}.
Local Open Scope mp_scope.

Lemma get_list_fails n p p' e :
  get_list n p = (p', inl e) -> n = 0%nat /\ e = IndexError /\ p' = p.
Proof.
  intros E.
  destruct (get_list_cases n p) as [(l0 & p0 & E0 & _)|(E0 & Hn & _)];
    rewrite E0 in E; [discriminate|].
  injection E as -> ->. auto.
Qed.

Lemma mapM_values {A B} (f : A -> M T B) l vs p :
  (forall x, stable (f x)) ->
  Forall2 (fun x v => snd (f x p) = inr v) l vs ->
  forall q, cache_ok p -> cache_ok q -> same_ctx p q ->
    exists q', mapM f l q = (q', inr vs) /\ cache_ok q' /\ same_ctx q q'.
Proof.
  intros Hst. induction 1 as [|x v l vs Hx Hl IH]; intros q Hp Hq Hpq.
  - exists q. repeat split; auto.
  - cbn [mapM].
    rewrite <- (stable_transport (Hst x) Hp Hq Hpq) in Hx.
    destruct (bind_step (Hst x) Hq Hx) as (q1 & Hq1 & Hs1 & ->).
    destruct (IH q1 Hp Hq1 (same_ctx_trans Hpq Hs1)) as (q2 & E2 & Hq2 & Hs2).
    exists q2. unfold bind. rewrite E2. cbn.
    repeat split; auto; apply (same_ctx_trans Hs1 Hs2).
Qed.

Lemma mapM_fails {A B} (f : A -> M T B) l1 x l2 e p :
  (forall x, stable (f x)) ->
  Forall (fun y => exists v, snd (f y p) = inr v) l1 ->
  snd (f x p) = inl e ->
  forall q, cache_ok p -> cache_ok q -> same_ctx p q ->
    snd (mapM f (l1 ++ x :: l2) q) = inl e.
Proof.
  intros Hst Hl1 Hx. induction Hl1 as [|y l1 [v Hy] Hl1 IH]; intros q Hp Hq Hpq.
  - cbn [app mapM]. apply bind_fail.
    now rewrite (stable_transport (Hst x) Hp Hq Hpq).
  - cbn [app mapM].
    rewrite <- (stable_transport (Hst y) Hp Hq Hpq) in Hy.
    destruct (bind_step (Hst y) Hq Hy) as (q1 & Hq1 & Hs1 & ->).
    apply bind_fail. apply IH; auto. apply (same_ctx_trans Hpq Hs1).
Qed.

(** X5: a part is the sum of its terms, each taken by itself: when every
    term evaluates, from the given context, to its value in [vs], the
    part evaluates to [sum(vs)]; an empty part is 0. *)
Theorem Part_evaluate_sum pt x p vs :
  cache_ok p ->
  Forall2 (fun t v => snd (Term_evaluate t x p) = inr v) (part_terms pt) vs ->
  snd (Part_evaluate pt x p) = inr (py_sum vs) /\
  (part_terms pt = [] -> snd (Part_evaluate pt x p) = inr (mpf 0)).
Proof.
  intros Hp Hvs.
  destruct (@mapM_values _ _ (fun t => Term_evaluate t x) (part_terms pt) vs p
              (fun t => stable_Term_evaluate t x) Hvs p Hp Hp (same_ctx_refl p))
    as (q & E & _).
  assert (Ev : snd (Part_evaluate pt x p) = inr (py_sum vs)).
  { unfold Part_evaluate, bind. rewrite E. reflexivity. }
  split; [exact Ev|]. intros Hnil. rewrite Ev. rewrite Hnil in Hvs.
  inversion Hvs. reflexivity.
Qed.

(** X6: the first term that fails decides the outcome of the part: the
    terms before it evaluate, its exception is the part's, and the terms
    after it are not looked at. *)
Theorem Part_evaluate_first_failure pt x p ts1 t ts2 e :
  cache_ok p ->
  part_terms pt = ts1 ++ t :: ts2 ->
  Forall (fun t' => exists v, snd (Term_evaluate t' x p) = inr v) ts1 ->
  snd (Term_evaluate t x p) = inl e ->
  snd (Part_evaluate pt x p) = inl e.
Proof.
  intros Hp Hsplit Hts1 Ht. unfold Part_evaluate. apply bind_fail.
  rewrite Hsplit.
  apply mapM_fails with (f := fun t => Term_evaluate t x) (p := p); auto.
  - intros t'. apply stable_Term_evaluate.
  - apply same_ctx_refl.
Qed.

(** X7: a term fails in two ways only, and leaves the context as it
    was when it does: [ZeroDivisionError] from [x**n], or from
    [(a*b)**m] when [m != 0]; or [IndexError] when its coefficient list
    is empty. *)
Theorem Term_evaluate_failure t x p p' e :
  Term_evaluate t x p = (p', inl e) ->
  p' = p /\
  ((e = ZeroDivisionError /\
    (mp_pow x (term_n t) = None \/
     (mp_eq (term_m t) (mpf 0) = false /\
      mp_pow (poly_a p * poly_b p) (term_m t) = None))) \/
   (e = IndexError /\ term_coeffs t = [])).
Proof.
  unfold Term_evaluate.
  destruct (mp_pow x (term_n t)) as [xn|] eqn:Exn.
  2:{ rewrite (bind_arith_None _ _ eq_refl). intros E; inversion E; subst.
      split; [reflexivity|]. left. split; [reflexivity|]. now left. }
  rewrite (bind_arith _ _ eq_refl).
  destruct (mp_eq (term_m t) (mpf 0)) eqn:Em; cbn [negb].
  - rewrite bind_ret. unfold eval_poly, bind.
    destruct (get_list (length (term_coeffs t)) p) as [q [e'|l]] eqn:Eg;
      [|discriminate].
    intros E; inversion E; subst. apply get_list_fails in Eg.
    destruct Eg as (Hn & -> & ->).
    split; [reflexivity|]. right. split; [reflexivity|].
    now apply length_zero_iff_nil.
  - unfold bind at 1. rewrite !bind_attr.
    destruct (mp_pow (poly_a p * poly_b p) (term_m t)) as [abm|] eqn:Eabm.
    2:{ cbn. intros E; inversion E; subst.
        split; [reflexivity|]. left. split; [reflexivity|]. now right. }
    cbn [arith ret]. unfold eval_poly, bind.
    destruct (get_list (length (term_coeffs t)) p) as [q [e'|l]] eqn:Eg;
      [|discriminate].
    intros E; inversion E; subst. apply get_list_fails in Eg.
    destruct Eg as (Hn & -> & ->).
    split; [reflexivity|]. right. split; [reflexivity|].
    now apply length_zero_iff_nil.
Qed.
End Parts.

(** ** The exceptions of an evaluation *)

Section Errors.
Context {T : Type} `{Mpf T}.
Local Open Scope mp_scope.

Lemma only_zde_KnlInt_termlist k x :
  KnlInt_nonempty k -> only_zde (KnlInt_termlist k x).
Proof.
  intros (N1 & N2 & N3 & N4). unfold KnlInt_termlist.
  apply only_zde_bind; [apply stable_Part_evaluate|now apply only_zde_Part_evaluate|intros Sc].
  apply only_zde_bind; [apply stable_Part_evaluate|now apply only_zde_Part_evaluate|intros Dc].
  apply only_zde_bind; [apply stable_Part_evaluate|now apply only_zde_Part_evaluate|intros Ss].
  apply only_zde_bind; [apply stable_Part_evaluate|now apply only_zde_Part_evaluate|intros Ds].
  apply only_zde_bind; [apply stable_attr_a|apply only_zde_attr|intros a].
  apply only_zde_bind; [apply stable_attr_b|apply only_zde_attr|intros b].
  do 9 (apply only_zde_bind; [apply stable_arith|apply only_zde_arith|intros ?]).
  apply only_zde_mapM.
  - intros term. apply stable_bind; [apply stable_arith|intros q; apply stable_ret].
  - apply Forall_forall. intros term _.
    apply only_zde_bind; [apply stable_arith|apply only_zde_arith|].
    intros q. apply only_zde_ret.
Qed.

(** X8: an expression without empty coefficient lists, evaluated from
    a valid cache, raises only [ZeroDivisionError], before the precision
    check, or the [NameError] of [sys.exit], exactly when the check
    fires. *)
Theorem KnlInt_evaluate_errors k x p e :
  KnlInt_nonempty k -> cache_ok p ->
  snd (KnlInt_evaluate k x p) = inl e ->
  (e = ZeroDivisionError /\ insufficient_precision k x p = false) \/
  (e = NameError "sys" /\ insufficient_precision k x p = true).
Proof.
  intros Hne Hp. unfold insufficient_precision, KnlInt_evaluate, bind.
  pose proof (only_zde_KnlInt_termlist x Hne (p := p)) as Hz.
  destruct (KnlInt_termlist k x p) as [p' [e'|tl]]; cbn [snd] in *.
  - intros [= <-]. left. split; [|reflexivity]. now apply Hz.
  - destruct (mp_lt _ _); cbn; intros [= <-]. right. auto.
Qed.

Lemma mapM_inr_In {A B} (f : A -> M T B) l x :
  (forall y, stable (f y)) -> In x l ->
  forall p vs, cache_ok p -> snd (mapM f l p) = inr vs ->
    exists q v, cache_ok q /\ same_ctx p q /\ snd (f x q) = inr v.
Proof.
  intros Hst. induction l as [|y l IH]; intros Hin p vs Hp E; [destruct Hin|].
  cbn [mapM] in E. unfold bind in E.
  destruct (stable_spec (Hst y) Hp) as (Hc & Hs & _).
  destruct (f y p) as [p1 [e|v]] eqn:Ey; cbn [fst snd] in *; [discriminate|].
  destruct Hin as [->|Hin].
  - exists p, v. rewrite Ey. split; [exact Hp|]. split; [apply same_ctx_refl|reflexivity].
  - destruct (mapM f l p1) as [p2 [e|vs']] eqn:El; [discriminate|].
    destruct (IH Hin p1 vs' Hc) as (q & w & Hq & Hsq & Ew).
    { now rewrite El. }
    exists q, w. split; [exact Hq|].
    split; [exact (same_ctx_trans Hs Hsq)|exact Ew].
Qed.

(** A part one of whose terms fails with [ZeroDivisionError] in every
    context fails so itself. *)
Lemma Part_evaluate_zde pt x t p :
  Part_nonempty pt -> In t (part_terms pt) ->
  (forall q, snd (Term_evaluate t x q) = inl ZeroDivisionError) ->
  cache_ok p -> snd (Part_evaluate pt x p) = inl ZeroDivisionError.
Proof.
  intros Hne Hin Ht Hp.
  destruct (snd (Part_evaluate pt x p)) as [e|v] eqn:E.
  - now rewrite (only_zde_Part_evaluate x Hne Hp E).
  - exfalso. unfold Part_evaluate, bind in E.
    destruct (mapM (fun t => Term_evaluate t x) (part_terms pt) p)
      as [p' [e|vs]] eqn:Em; [discriminate|].
    destruct (@mapM_inr_In _ _ (fun t => Term_evaluate t x) (part_terms pt) t
                (fun t => stable_Term_evaluate t x) Hin p vs Hp)
      as (q & w & _ & _ & Ew).
    { now rewrite Em. }
    rewrite Ht in Ew. discriminate.
Qed.

Lemma Term_evaluate_pow_None t x q :
  mp_pow x (term_n t) = None ->
  snd (Term_evaluate t x q) = inl ZeroDivisionError.
Proof. intros E. unfold Term_evaluate. now rewrite (bind_arith_None _ _ E). Qed.

Lemma bind_inr_inv {A B} (m : M T A) (k : A -> M T B) p r :
  snd (bind m k p) = inr r ->
  exists p' v, m p = (p', inr v) /\ snd (k v p') = inr r.
Proof.
  unfold bind. destruct (m p) as [p' [e|v]]; [discriminate|]. eauto.
Qed.

(** When the four components are computed, each part has evaluated in
    some valid context for the same [(a, b)]. *)
Lemma KnlInt_termlist_inr_parts k x p tl :
  cache_ok p -> snd (KnlInt_termlist k x p) = inr tl ->
  forall pt, In pt [knl_csum k; knl_cdiff k; knl_ssum k; knl_sdiff k] ->
    exists q v, cache_ok q /\ same_ctx p q /\ snd (Part_evaluate pt x q) = inr v.
Proof.
  intros Hp E. unfold KnlInt_termlist in E.
  apply bind_inr_inv in E. destruct E as (p1 & Sc & E1 & E).
  destruct (stable_spec (stable_Part_evaluate (knl_csum k) x) Hp) as (Hp1 & Hs1 & _).
  rewrite E1 in Hp1, Hs1. cbn [fst] in Hp1, Hs1.
  apply bind_inr_inv in E. destruct E as (p2 & Dc & E2 & E).
  destruct (stable_spec (stable_Part_evaluate (knl_cdiff k) x) Hp1) as (Hp2 & Hs2 & _).
  rewrite E2 in Hp2, Hs2. cbn [fst] in Hp2, Hs2.
  apply bind_inr_inv in E. destruct E as (p3 & Ss & E3 & E).
  destruct (stable_spec (stable_Part_evaluate (knl_ssum k) x) Hp2) as (Hp3 & Hs3 & _).
  rewrite E3 in Hp3, Hs3. cbn [fst] in Hp3, Hs3.
  apply bind_inr_inv in E. destruct E as (p4 & Ds & E4 & _).
  pose proof (same_ctx_trans Hs1 Hs2) as Hs12.
  pose proof (same_ctx_trans Hs12 Hs3) as Hs13.
  intros pt [<-|[<-|[<-|[<-|[]]]]].
  - exists p, Sc. rewrite E1. split; [exact Hp|]. split; [apply same_ctx_refl|reflexivity].
  - exists p1, Dc. rewrite E2. auto.
  - exists p2, Ss. rewrite E3. auto.
  - exists p3, Ds. rewrite E4. auto.
Qed.

Section Laws.
Hypothesis pow_zero_neg :
  forall j : Z, j < 0 -> mp_pow (mpf 0) (mpf j) = None.

(** X9: at [x = 0] an expression with a negative power of [x] among its
    terms raises [ZeroDivisionError]. *)
Theorem KnlInt_evaluate_at_zero k p t j :
  KnlInt_nonempty k -> cache_ok p ->
  In t (KnlInt_terms k) -> term_n t = mpf j -> j < 0 ->
  snd (KnlInt_evaluate k (mpf 0) p) = inl ZeroDivisionError.
Proof.
  intros Hne Hp Hin Hn Hj.
  assert (Ht : forall q, snd (Term_evaluate t (mpf 0) q) = inl ZeroDivisionError).
  { intros q. apply Term_evaluate_pow_None. rewrite Hn. now apply pow_zero_neg. }
  unfold KnlInt_evaluate. apply bind_fail.
  destruct (snd (KnlInt_termlist k (mpf 0) p)) as [e|tl] eqn:E.
  - now rewrite (only_zde_KnlInt_termlist (mpf 0) Hne Hp E).
  - exfalso. pose proof (KnlInt_termlist_inr_parts k (mpf 0) Hp E) as Hparts.
    destruct Hne as (N1 & N2 & N3 & N4).
    unfold KnlInt_terms in Hin. rewrite !in_app_iff in Hin.
    assert (Hpt : exists pt, In pt [knl_csum k; knl_cdiff k; knl_ssum k; knl_sdiff k]
                     /\ Part_nonempty pt /\ In t (part_terms pt)).
    { destruct Hin as [Hin|[Hin|[Hin|Hin]]];
        [exists (knl_csum k)|exists (knl_cdiff k)|exists (knl_ssum k)|exists (knl_sdiff k)];
        cbn [In]; auto 10. }
    destruct Hpt as (pt & Hpt & Npt & Hint).
    destruct (Hparts pt Hpt) as (q & v & Hq & _ & Ev).
    rewrite (@Part_evaluate_zde pt (mpf 0) t q Npt Hint Ht Hq) in Ev. discriminate.
Qed.
End Laws.
End Errors.

(** ** What a returned value is made of *)

Section Inversion.
Context {T : Type} `{Mpf T}.
Local Open Scope mp_scope.

Lemma bind_arith_inv {A B} (o : option A) (k : A -> M T B) p r :
  snd (bind (arith o) k p) = inr r ->
  exists v, o = Some v /\ snd (k v p) = inr r.
Proof. destruct o as [v|]; [eauto|discriminate]. Qed.

Lemma bind_part_inv {B} pt x (k : T -> M T B) p0 p r :
  cache_ok p0 -> cache_ok p -> same_ctx p0 p ->
  snd (bind (Part_evaluate pt x) k p) = inr r ->
  exists v p', snd (Part_evaluate pt x p0) = inr v /\
    cache_ok p' /\ same_ctx p0 p' /\ snd (k v p') = inr r.
Proof.
  intros Hp0 Hp Hs E. apply bind_inr_inv in E. destruct E as (p' & v & Ev & E).
  destruct (stable_spec (stable_Part_evaluate pt x) Hp) as (Hc & Hs' & _).
  rewrite Ev in Hc, Hs'. cbn [fst] in Hc, Hs'.
  exists v, p'. split.
  - rewrite <- (stable_transport (stable_Part_evaluate pt x) Hp0 Hp Hs).
    now rewrite Ev.
  - split; [exact Hc|]. split; [exact (same_ctx_trans Hs Hs')|exact E].
Qed.

(** The converse of the description of the components: when they are
    computed, every value they are made of is defined. *)
Lemma KnlInt_termlist_inversion k x p tl :
  cache_ok p -> snd (KnlInt_termlist k x p) = inr tl ->
  let a := poly_a p in
  let b := poly_b p in
  exists Sc Dc Ss Ds abl dcp dcm dsp dsm T1 T2 T3 T4 q,
    snd (Part_evaluate (knl_csum k) x p) = inr Sc /\
    snd (Part_evaluate (knl_cdiff k) x p) = inr Dc /\
    snd (Part_evaluate (knl_ssum k) x p) = inr Ss /\
    snd (Part_evaluate (knl_sdiff k) x p) = inr Ds /\
    mp_pow (a * b) (knl_l k + mpf 1) = Some abl /\
    mp_pow (a + b) (knl_n k - mpf 2) = Some dcp /\
    mp_div (mp_cos (x * (a + b)) * (Sc + Dc)) dcp = Some T1 /\
    mp_pow (a - b) (knl_n k - mpf 2) = Some dcm /\
    mp_div (mp_cos (x * (a - b)) * (Sc - Dc)) dcm = Some T2 /\
    mp_pow (a + b) (knl_n k - mpf 1) = Some dsp /\
    mp_div (mp_sin (x * (a + b)) * (Ss + Ds)) dsp = Some T3 /\
    mp_pow (a - b) (knl_n k - mpf 1) = Some dsm /\
    mp_div (mp_sin (x * (a - b)) * (Ss - Ds)) dsm = Some T4 /\
    mp_div mpf_quarter abl = Some q /\
    tl = [q * T1; q * T2; q * T3; q * T4].
Proof.
  intros Hp E a b. unfold KnlInt_termlist in E.
  apply bind_part_inv with (p0 := p) in E; [|exact Hp|exact Hp|apply same_ctx_refl].
  destruct E as (Sc & p1 & ESc & Hp1 & Hs1 & E).
  apply bind_part_inv with (p0 := p) in E; [|exact Hp|exact Hp1|exact Hs1].
  destruct E as (Dc & p2 & EDc & Hp2 & Hs2 & E).
  apply bind_part_inv with (p0 := p) in E; [|exact Hp|exact Hp2|exact Hs2].
  destruct E as (Ss & p3 & ESs & Hp3 & Hs3 & E).
  apply bind_part_inv with (p0 := p) in E; [|exact Hp|exact Hp3|exact Hs3].
  destruct E as (Ds & p4 & EDs & Hp4 & (Ea & Eb & _) & E).
  rewrite !bind_attr, <- Ea, <- Eb in E. fold a b in E.
  apply bind_arith_inv in E. destruct E as (abl & Eabl & E).
  apply bind_arith_inv in E. destruct E as (dcp & Edcp & E).
  apply bind_arith_inv in E. destruct E as (T1 & ET1 & E).
  apply bind_arith_inv in E. destruct E as (dcm & Edcm & E).
  apply bind_arith_inv in E. destruct E as (T2 & ET2 & E).
  apply bind_arith_inv in E. destruct E as (dsp & Edsp & E).
  apply bind_arith_inv in E. destruct E as (T3 & ET3 & E).
  apply bind_arith_inv in E. destruct E as (dsm & Edsm & E).
  apply bind_arith_inv in E. destruct E as (T4 & ET4 & E).
  cbn [mapM] in E.
  destruct (mp_div mpf_quarter abl) as [q|] eqn:Eq; [|discriminate].
  cbn in E. injection E as <-.
  exists Sc, Dc, Ss, Ds, abl, dcp, dcm, dsp, dsm, T1, T2, T3, T4, q.
  repeat split; assumption.
Qed.

(** X10: a returned value is the sum of the four normalised components,
    all of whose ingredients are defined, and the guard has not fired. *)
Theorem KnlInt_evaluate_inversion k x p r :
  cache_ok p -> snd (KnlInt_evaluate k x p) = inr r ->
  let a := poly_a p in
  let b := poly_b p in
  exists Sc Dc Ss Ds abl dcp dcm dsp dsm T1 T2 T3 T4 q,
    snd (Part_evaluate (knl_csum k) x p) = inr Sc /\
    snd (Part_evaluate (knl_cdiff k) x p) = inr Dc /\
    snd (Part_evaluate (knl_ssum k) x p) = inr Ss /\
    snd (Part_evaluate (knl_sdiff k) x p) = inr Ds /\
    mp_pow (a * b) (knl_l k + mpf 1) = Some abl /\
    mp_pow (a + b) (knl_n k - mpf 2) = Some dcp /\
    mp_div (mp_cos (x * (a + b)) * (Sc + Dc)) dcp = Some T1 /\
    mp_pow (a - b) (knl_n k - mpf 2) = Some dcm /\
    mp_div (mp_cos (x * (a - b)) * (Sc - Dc)) dcm = Some T2 /\
    mp_pow (a + b) (knl_n k - mpf 1) = Some dsp /\
    mp_div (mp_sin (x * (a + b)) * (Ss + Ds)) dsp = Some T3 /\
    mp_pow (a - b) (knl_n k - mpf 1) = Some dsm /\
    mp_div (mp_sin (x * (a - b)) * (Ss - Ds)) dsm = Some T4 /\
    mp_div mpf_quarter abl = Some q /\
    mp_lt (prec_remaining [q * T1; q * T2; q * T3; q * T4]) (mpf 13) = false /\
    r = mpf 0 + q * T1 + q * T2 + q * T3 + q * T4.
Proof.
  intros Hp E a b. unfold KnlInt_evaluate in E.
  apply bind_inr_inv in E. destruct E as (p' & tl & Etl & E).
  assert (Etl' : snd (KnlInt_termlist k x p) = inr tl) by now rewrite Etl.
  destruct (KnlInt_termlist_inversion k x Hp Etl')
    as (Sc & Dc & Ss & Ds & abl & dcp & dcm & dsp & dsm & T1 & T2 & T3 & T4 & q
        & H1 & H2 & H3 & H4 & H5 & H6 & H7 & H8 & H9 & H10 & H11 & H12 & H13
        & H14 & ->).
  destruct (mp_lt _ _) eqn:Elt; [discriminate|]. cbn in E. injection E as <-.
  exists Sc, Dc, Ss, Ds, abl, dcp, dcm, dsp, dsm, T1, T2, T3, T4, q.
  repeat split; assumption.
Qed.

Section Laws.
Hypothesis div_zero : forall x : T, mp_div x (mpf 0) = None.
Hypothesis mpf_sub : forall i j : Z, mpf i - mpf j = mpf (i - j).
Hypothesis mpf_add : forall i j : Z, mpf i + mpf j = mpf (i + j).
Hypothesis pow_zero_pos :
  forall k : Z, 0 < k -> mp_pow (mpf 0) (mpf k) = Some (mpf 0).

(** X11: for a table entry, [a + b = 0] and [a * b = 0] raise
    [ZeroDivisionError] as [a = b] does. *)
Theorem KnlInt_evaluate_zero_divisor n l k x p :
  integrals !! (n, l) = Some k -> cache_ok p ->
  poly_a p + poly_b p = mpf 0 \/ poly_a p * poly_b p = mpf 0 ->
  snd (KnlInt_evaluate k x p) = inl ZeroDivisionError.
Proof.
  intros Ek Hp Hzero.
  destruct (integrals_entry _ _ Ek) as (En & El & Hn & Hl & Hne).
  cbn [fst snd] in En, El, Hn, Hl.
  unfold KnlInt_evaluate. apply bind_fail.
  destruct (snd (KnlInt_termlist k x p)) as [e|tl] eqn:E.
  - now rewrite (only_zde_KnlInt_termlist x Hne Hp E).
  - exfalso. destruct (KnlInt_termlist_inversion k x Hp E)
      as (Sc & Dc & Ss & Ds & abl & dcp & dcm & dsp & dsm & T1 & T2 & T3 & T4 & q
          & _ & _ & _ & _ & Habl & Hdcp & HT1 & _ & _ & _ & _ & _ & _ & Hq & _).
    destruct Hzero as [Hz|Hz].
    + rewrite Hz, En, mpf_sub, pow_zero_pos in Hdcp by lia.
      injection Hdcp as <-. rewrite div_zero in HT1. discriminate.
    + rewrite Hz, El, mpf_add, pow_zero_pos in Habl by lia.
      injection Habl as <-. rewrite div_zero in Hq. discriminate.
Qed.
End Laws.
End Inversion.

(** ** The definite integral and the table *)

Section CompareFacts.
Context {T : Type} `{Mpf T}.
Local Open Scope mp_scope.

(** [Compare] without the shared context: each bound from a fresh one. *)
Lemma Compare_fresh x1 x2 n l a b :
  Compare x1 x2 n l a b =
    match integrals !! (n, l) with
    | None => inl KeyError
    | Some k =>
        match antiderivative k a b x1 with
        | inl e => inl e
        | inr v1 =>
            match antiderivative k a b x2 with
            | inl e => inl e
            | inr v2 => inr (v2 - v1)
            end
        end
    end.
Proof.
  unfold Compare, integrals_getitem, antiderivative.
  destruct (integrals !! (n, l)) as [k|]; [|reflexivity].
  rewrite bind_ret.
  pose proof (@cache_ok_init _ _ a b) as Hp.
  destruct (snd (KnlInt_evaluate k x1 (Polynomial_init a b))) as [e|v1] eqn:E1.
  { now apply bind_fail. }
  destruct (bind_step (stable_KnlInt_evaluate k x1) Hp E1) as (p1 & Hp1 & Hs1 & ->).
  rewrite bind_ret.
  rewrite <- (stable_transport (stable_KnlInt_evaluate k x2) Hp Hp1 Hs1).
  destruct (snd (KnlInt_evaluate k x2 p1)) as [e|v2] eqn:E2.
  { now apply bind_fail. }
  destruct (bind_step (stable_KnlInt_evaluate k x2) Hp1 E2) as (p2 & _ & _ & ->).
  reflexivity.
Qed.

(** X12: the outcome of the definite integral in terms of the two
    bounds taken separately: it returns exactly when both bounds
    evaluate, and it raises the exception of the first step that fails --
    the lookup, then the lower bound, then the upper bound. *)
Theorem Compare_outcome x1 x2 n l a b :
  (forall d, Compare x1 x2 n l a b = inr d <->
     exists k v1 v2, integrals !! (n, l) = Some k /\
       antiderivative k a b x1 = inr v1 /\
       antiderivative k a b x2 = inr v2 /\ d = v2 - v1) /\
  (forall e, Compare x1 x2 n l a b = inl e <->
     (integrals !! (n, l) = None /\ e = KeyError) \/
     exists k, integrals !! (n, l) = Some k /\
       (antiderivative k a b x1 = inl e \/
        (exists v1, antiderivative k a b x1 = inr v1) /\
        antiderivative k a b x2 = inl e)).
Proof.
  rewrite Compare_fresh. split.
  - intros d. split.
    + destruct (integrals !! (n, l)) as [k|]; [|discriminate].
      destruct (antiderivative k a b x1) as [e|v1] eqn:E1; [discriminate|].
      destruct (antiderivative k a b x2) as [e|v2] eqn:E2; [discriminate|].
      intros E. inversion E. exists k, v1, v2. auto.
    + intros (k & v1 & v2 & -> & -> & -> & ->). reflexivity.
  - intros e. split.
    + intros E. destruct (integrals !! (n, l)) as [k|].
      2:{ inversion E. now left. }
      right. exists k. split; [reflexivity|].
      destruct (antiderivative k a b x1) as [e1|v1] eqn:E1.
      { inversion E. now left. }
      destruct (antiderivative k a b x2) as [e2|v2] eqn:E2; [|discriminate].
      inversion E. right. eauto.
    + intros [(-> & ->)|(k & -> & [->|((v1 & ->) & ->)])]; reflexivity.
Qed.

Section Swap.
Hypothesis sub_swap : forall u v : T, mpf 0 - (v - u) = u - v.

(** X13: exchanging the two bounds changes the sign of the result. *)
Theorem Compare_swap x1 x2 n l a b d :
  Compare x1 x2 n l a b = inr d ->
  Compare x2 x1 n l a b = inr (mpf 0 - d).
Proof.
  rewrite !Compare_fresh.
  destruct (integrals !! (n, l)) as [k|]; [|discriminate].
  destruct (antiderivative k a b x1) as [e|v1]; [discriminate|].
  destruct (antiderivative k a b x2) as [e|v2]; [discriminate|].
  intros E. inversion E. now rewrite sub_swap.
Qed.
End Swap.

(** X14: when the definite integral is defined over [[x1, x2]] and over
    [[x2, x3]], it is defined over [[x1, x3]], and the three results are
    the differences of the same three antiderivative values: the value
    at [x2] is the same in both. *)
Theorem Compare_adjacent x1 x2 x3 n l a b d12 d23 :
  Compare x1 x2 n l a b = inr d12 ->
  Compare x2 x3 n l a b = inr d23 ->
  exists k v1 v2 v3,
    integrals !! (n, l) = Some k /\
    antiderivative k a b x1 = inr v1 /\
    antiderivative k a b x2 = inr v2 /\
    antiderivative k a b x3 = inr v3 /\
    d12 = v2 - v1 /\ d23 = v3 - v2 /\
    Compare x1 x3 n l a b = inr (v3 - v1).
Proof.
  rewrite !Compare_fresh.
  destruct (integrals !! (n, l)) as [k|]; [|discriminate].
  destruct (antiderivative k a b x1) as [e|v1] eqn:E1; [discriminate|].
  destruct (antiderivative k a b x2) as [e|v2] eqn:E2; [discriminate|].
  destruct (antiderivative k a b x3) as [e|v3] eqn:E3; [intros _; discriminate|].
  intros [= <-] [= <-]. exists k, v1, v2, v3. repeat split; assumption.
Qed.


Lemma integrals_lookup_Some n l :
  (n = 4 \/ n = 6) -> 0 <= l <= 10 -> is_Some (integrals (T := T) !! (n, l)).
Proof.
  intros Hn Hl.
  assert (Hc : l = 0 \/ l = 1 \/ l = 2 \/ l = 3 \/ l = 4 \/ l = 5 \/
               l = 6 \/ l = 7 \/ l = 8 \/ l = 9 \/ l = 10) by lia.
  destruct Hn as [-> | ->];
    repeat (destruct Hc as [-> | Hc]);
    try subst l;
    match goal with
    | |- is_Some ?o => destruct o eqn:E; [eauto | vm_compute in E; discriminate]
    end.
Qed.

(** X15: the keys of the table are exactly the pairs [(n, l)] with
    [n] in {4, 6} and [0 <= l <= 10], and the expression stored under
    [(n, l)] carries this [n] and this [l]. *)
Theorem integrals_domain n l :
  (is_Some (integrals (T := T) !! (n, l)) <-> (n = 4 \/ n = 6) /\ 0 <= l <= 10) /\
  (forall k, integrals !! (n, l) = Some k -> knl_n k = mpf n /\ knl_l k = mpf l).
Proof.
  split; [split|].
  - intros [k Ek]. destruct (integrals_entry _ _ Ek) as (_ & _ & Hn & Hl & _). auto.
  - intros [Hn Hl]. now apply integrals_lookup_Some.
  - intros k Ek. destruct (integrals_entry _ _ Ek) as (En & El & _). auto.
Qed.
End CompareFacts.

(** ** Exchanging [a] and [b] *)

Section Symmetry.
Context {T : Type} `{Mpf T}.
Local Open Scope mp_scope.

Lemma Term_evaluate_value t x p :
  cache_ok p ->
  snd (Term_evaluate t x p) =
    match mp_pow x (term_n t) with
    | None => inl ZeroDivisionError
    | Some xn =>
        match (if negb (mp_eq (term_m t) (mpf 0))
               then mp_pow (poly_a p * poly_b p) (term_m t)
               else Some (mpf 1)) with
        | None => inl ZeroDivisionError
        | Some abm =>
            match snd (eval_poly (term_coeffs t) p) with
            | inl e => inl e
            | inr w => inr (term_c t * xn * abm * w)
            end
        end
    end.
Proof.
  intros Hp. unfold Term_evaluate.
  destruct (mp_pow x (term_n t)) as [xn|]; [|reflexivity].
  rewrite (bind_arith _ _ eq_refl).
  destruct (negb (mp_eq (term_m t) (mpf 0))).
  - unfold bind at 1. rewrite !bind_attr.
    destruct (mp_pow (poly_a p * poly_b p) (term_m t)) as [abm|]; [|reflexivity].
    cbn [arith ret]. apply snd_bind_ret.
  - rewrite bind_ret. apply snd_bind_ret.
Qed.

Lemma zip_with_reverse {A B C} (f : A -> B -> C) l k :
  length l = length k ->
  zip_with f (reverse l) (reverse k) = reverse (zip_with f l k).
Proof.
  revert k. induction l as [|x l IH]; intros [|y k] Hlen; try discriminate.
  - reflexivity.
  - cbn [zip_with]. rewrite !reverse_cons.
    rewrite zip_with_app by (rewrite !length_reverse; cbn in Hlen; lia).
    rewrite IH by (cbn in Hlen; lia). reflexivity.
Qed.

(** Every coefficient list of the table reads the same in both
    directions. *)
Lemma integrals_palindromic :
  map_Forall (fun _ k => KnlInt_palindromic k) (integrals (T := T)).
Proof.
  unfold integrals.
  repeat (apply map_Forall_insert_2;
          [ unfold KnlInt_palindromic, Part_palindromic; cbn;
            repeat split; repeat constructor | ]).
  apply map_Forall_empty.
Qed.

Lemma integrals_term n l k t :
  integrals !! (n, l) = Some k -> In t (KnlInt_terms k) ->
  term_coeffs t <> [] /\ reverse (term_coeffs t) = term_coeffs t.
Proof.
  intros Ek Hin.
  destruct (integrals_entry _ _ Ek) as (_ & _ & _ & _ & N1 & N2 & N3 & N4).
  destruct (integrals_palindromic _ Ek) as (P1 & P2 & P3 & P4).
  unfold Part_nonempty, Part_palindromic in *.
  rewrite Forall_forall in N1, N2, N3, N4, P1, P2, P3, P4.
  unfold KnlInt_terms in Hin. rewrite !in_app_iff in Hin.
  destruct Hin as [Hin|[Hin|[Hin|Hin]]]; apply list_elem_of_In in Hin; auto.
Qed.

Section Laws.
Hypothesis mul_comm : forall x y : T, x * y = y * x.

Lemma _make_list_reverse p q n m :
  swapped p q -> _make_list p n = inr m -> _make_list q n = inr (reverse m).
Proof.
  intros (_ & _ & Ea & Eb) Em. destruct n as [|n]; [discriminate|].
  destruct (_make_list_succ p n) as (m0 & Em0 & Hlen & Hm).
  rewrite Em0 in Em. injection Em as <-.
  destruct (_make_list_succ q n) as (mq & -> & Hlenq & Hmq).
  f_equal. apply list_eq. intros i.
  destruct (decide (i <= n)%nat) as [Hi|Hi].
  - rewrite Hmq by exact Hi.
    rewrite reverse_lookup by lia. rewrite Hlen.
    replace (S n - S i)%nat with (n - i)%nat by lia.
    rewrite Hm by lia. rewrite Ea, Eb.
    replace (n - (n - i))%nat with i by lia.
    f_equal. apply mul_comm.
  - rewrite !lookup_ge_None_2; [reflexivity| |]; rewrite ?length_reverse; lia.
Qed.

(** X16: exchanging [a] and [b] reverses the list of monomials that
    [get_list] returns. *)
Theorem get_list_swap p q n m :
  swapped p q -> cache_ok p -> cache_ok q ->
  snd (get_list n p) = inr m -> snd (get_list n q) = inr (reverse m).
Proof.
  intros Hsw Hp Hq. rewrite !get_list_value by assumption.
  now apply _make_list_reverse.
Qed.

Hypothesis add_comm : forall x y : T, x + y = y + x.

Lemma np_sum_reverse_short (l : list T) :
  (length l <= 2)%nat -> np_sum (reverse l) = np_sum l.
Proof.
  destruct l as [|x [|y [|z r]]]; cbn [length]; intros Hl;
    [reflexivity|reflexivity|apply add_comm|lia].
Qed.

(** X17: for every term of every table entry, the weighted sum for
    [(b, a)] adds the very summands [coeffs[k] * m[k]] of the weighted
    sum for [(a, b)], in the opposite order; a term with at most two
    coefficients therefore has the same outcome for [(a, b)] and for
    [(b, a)].  Only the commutativity of the product and of the sum is
    used. *)
Theorem integrals_summands_reversed n l k t p q :
  integrals !! (n, l) = Some k -> In t (KnlInt_terms k) ->
  cache_ok p -> cache_ok q -> swapped p q ->
  exists m,
    snd (get_list (length (term_coeffs t)) p) = inr m /\
    snd (get_list (length (term_coeffs t)) q) = inr (reverse m) /\
    snd (eval_poly (term_coeffs t) p) =
      inr (np_sum (zip_with mp_mul (term_coeffs t) m)) /\
    snd (eval_poly (term_coeffs t) q) =
      inr (np_sum (reverse (zip_with mp_mul (term_coeffs t) m))) /\
    ((length (term_coeffs t) <= 2)%nat ->
     forall x, snd (Term_evaluate t x q) = snd (Term_evaluate t x p)).
Proof.
  intros Ek Hin Hp Hq Hsw.
  destruct (integrals_term _ _ _ Ek Hin) as [Hnil Hrev].
  assert (Hm : exists m, _make_list p (length (term_coeffs t)) = inr m /\
                         length m = length (term_coeffs t)).
  { destruct (length (term_coeffs t)) as [|j] eqn:El.
    - now apply length_zero_iff_nil in El.
    - destruct (_make_list_succ p j) as (m & Em & Hlen & _). eauto. }
  destruct Hm as (m & Em & Hlen).
  pose proof (_make_list_reverse _ Hsw Em) as Eq.
  assert (Ez : zip_with mp_mul (term_coeffs t) (reverse m) =
               reverse (zip_with mp_mul (term_coeffs t) m)).
  { rewrite <- Hrev at 1. apply zip_with_reverse. congruence. }
  exists m. rewrite !get_list_value, !eval_poly_value by assumption.
  rewrite Em, Eq, Ez. repeat (split; [reflexivity|]).
  intros Hshort x. rewrite !Term_evaluate_value by assumption.
  rewrite !eval_poly_value by assumption. rewrite Em, Eq, Ez.
  rewrite np_sum_reverse_short
    by (rewrite length_zip_with; lia).
  destruct Hsw as (-> & -> & _). now rewrite (mul_comm (poly_b p)).
Qed.
End Laws.
End Symmetry.


(** ** Regular inputs *)

Section Regular.
Context {T : Type} `{Mpf T}.
Local Open Scope mp_scope.

Hypothesis lt_nonzero : forall x : T, mp_lt (mpf 0) x = true -> x <> mpf 0.
Hypothesis pow_nonzero :
  forall x e : T, x <> mpf 0 -> exists v, mp_pow x e = Some v /\ v <> mpf 0.
Hypothesis div_nonzero : forall x y : T, y <> mpf 0 -> is_Some (mp_div x y).

(** X18: for a table entry, [x > 0] and [a*b], [a+b], [a-b] all different
    from 0, no division fails: the evaluation returns a value or stops at
    the precision guard. *)
Theorem KnlInt_evaluate_regular n l k x p :
  integrals !! (n, l) = Some k -> cache_ok p ->
  mp_lt (mpf 0) x = true ->
  poly_a p * poly_b p <> mpf 0 ->
  poly_a p + poly_b p <> mpf 0 ->
  poly_a p - poly_b p <> mpf 0 ->
  (exists r, snd (KnlInt_evaluate k x p) = inr r) \/
  snd (KnlInt_evaluate k x p) = inl (NameError "sys").
Proof.
  intros Ek Hp Hx Hab Hapb Hamb.
  destruct (integrals_entry _ _ Ek) as (_ & _ & _ & _ & Hne).
  destruct (@KnlInt_termlist_defined _ _ lt_nonzero pow_nonzero div_nonzero
              k x p Hne Hp Hx Hab Hapb Hamb) as (tl & Etl).
  unfold KnlInt_evaluate, bind.
  destruct (KnlInt_termlist k x p) as [p' r]. cbn in Etl. subst r.
  destruct (mp_lt (prec_remaining tl) (mpf 13));
    [right; reflexivity|left; eexists; reflexivity].
Qed.
End Regular.

(** * The rational instance satisfies the laws used above *)

Module QcFacts.
Import QcNum.
Local Open Scope mp_scope.

Lemma this_of_Z z : this (of_Z z) = inject_Z z.
Proof.
  unfold of_Z. cbn [this Q2Qc]. apply Qred_identity.
  cbn. apply Z.gcd_1_r.
Qed.

Lemma qc_mul_comm (x y : Qc) : x * y = y * x.
Proof. apply Qcmult_comm. Qed.

Lemma qc_mul_assoc (x y z : Qc) : x * (y * z) = x * y * z.
Proof. apply Qcmult_assoc. Qed.

Lemma qc_mul_1_l (x : Qc) : mpf 1 * x = x.
Proof. apply Qcmult_1_l. Qed.

Lemma qc_mul_1_1 : mpf 1 * mpf 1 = mpf 1 :> Qc.
Proof. apply qc_mul_1_l. Qed.

Lemma qc_mul_1_prod (x y : Qc) : mpf 1 * (x * y) = x * y.
Proof. apply qc_mul_1_l. Qed.

Lemma qc_mul_prod_1 (x y : Qc) : x * y * mpf 1 = x * y.
Proof. rewrite qc_mul_comm. apply qc_mul_1_l. Qed.

Lemma qc_add_0_l (x : Qc) : mpf 0 + x = x.
Proof. apply Qcplus_0_l. Qed.

Lemma qc_sub_diag (x : Qc) : x - x = mpf 0.
Proof. apply Qcplus_opp_r. Qed.

Lemma qc_mpf_sub (i j : Z) : mpf i - mpf j = mpf (i - j) :> Qc.
Proof.
  apply Qc_is_canon. cbn [mpf Qc_Mpf mp_sub]. unfold Qcminus, Qcplus, Qcopp, of_Z.
  cbn [this Q2Qc]. rewrite !Qred_correct.
  unfold Z.sub. rewrite inject_Z_plus, inject_Z_opp. reflexivity.
Qed.

Lemma qc_div_zero (x : Qc) : mp_div x (mpf 0) = None.
Proof. reflexivity. Qed.

Lemma qc_pow_zero_pos (k : Z) : 0 < k -> mp_pow (mpf 0 : Qc) (mpf k) = Some (mpf 0).
Proof.
  intros Hk. cbn [mp_pow mpf Qc_Mpf]. unfold pow.
  change (is_zero (of_Z 0)) with true. cbn match.
  rewrite this_of_Z. cbn [inject_Z Qnum].
  destruct (Z.ltb_spec 0 k); [reflexivity|lia].
Qed.

Lemma qc_pow_pos (x e : Qc) : mp_lt (mpf 0) x = true -> is_Some (mp_pow x e).
Proof.
  cbn [mp_lt mp_pow mpf Qc_Mpf]. unfold lt, pow, is_zero. intros Hx.
  destruct (Z.eqb_spec (Qnum (this x)) 0) as [E|E]; [|eauto].
  exfalso. revert Hx. unfold Qle_bool. rewrite E. cbn. discriminate.
Qed.

Lemma is_zero_true (x : Qc) : is_zero x = true -> x = mpf 0.
Proof.
  unfold is_zero. intros E. apply Z.eqb_eq in E.
  apply Qc_is_canon. unfold Qeq. rewrite E. reflexivity.
Qed.

Lemma is_zero_false (x : Qc) : x <> mpf 0 -> is_zero x = false.
Proof.
  intros Hx. destruct (is_zero x) eqn:E; [|reflexivity].
  now apply is_zero_true in E.
Qed.

Lemma qc_lt_nonzero (x : Qc) : mp_lt (mpf 0) x = true -> x <> mpf 0.
Proof. intros Hx ->. discriminate. Qed.

Lemma Qcpower_nonzero (x : Qc) n : x <> mpf 0 -> (x ^ n)%Qc <> mpf 0.
Proof.
  intros Hx. induction n as [|n IH]; [discriminate|].
  cbn [Qcpower]. intros E. apply Qcmult_integral in E. tauto.
Qed.

Lemma Qcinv_nonzero (x : Qc) : x <> mpf 0 -> (/ x)%Qc <> mpf 0.
Proof.
  intros Hx E. pose proof (Qcmult_inv_r x Hx) as E1.
  rewrite E in E1. change (mpf 0 : Qc) with 0%Qc in E1.
  rewrite Qcmult_0_r in E1. discriminate.
Qed.

Lemma qc_pow_nonzero (x e : Qc) :
  x <> mpf 0 -> exists v, mp_pow x e = Some v /\ v <> mpf 0.
Proof.
  intros Hx. cbn [mp_pow Qc_Mpf]. unfold pow. rewrite (is_zero_false Hx).
  eexists. split; [reflexivity|]. unfold powZ.
  destruct (0 <=? Qfloor (this e)).
  - now apply Qcpower_nonzero.
  - now apply Qcinv_nonzero, Qcpower_nonzero.
Qed.

Lemma qc_div_nonzero (x y : Qc) : y <> mpf 0 -> is_Some (mp_div x y).
Proof.
  intros Hy. cbn [mp_div Qc_Mpf]. unfold div. rewrite (is_zero_false Hy). eauto.
Qed.
End QcFacts.

(** * The statements at concrete inputs *)

Module Examples.
Import QcNum QcFacts.
Local Open Scope mp_scope.

(** C1 at [n=4, l=0], [a=2], [b=1], [x=1/2]. *)
Lemma KnlInt_evaluate_sum_witness :
  exists r : Qc,
    snd (KnlInt_evaluate knl_4_0 (Q2Qc (1 # 2)) (Polynomial_init (of_Z 2) (of_Z 1)))
    = inr r.
Proof.
  eexists.
  eapply (@KnlInt_evaluate_sum Qc _ knl_4_0 (Q2Qc (1 # 2))
            (Polynomial_init (of_Z 2) (of_Z 1))).
  - apply cache_ok_init.
  - reflexivity.
  - reflexivity.
  - reflexivity.
  - reflexivity.
  - reflexivity.
  - reflexivity.
  - reflexivity.
  - reflexivity.
  - reflexivity.
  - reflexivity.
  - reflexivity.
  - reflexivity.
  - reflexivity.
  - reflexivity.
  - vm_compute. reflexivity.
Defined.

(** C2 at [n=4, l=0], [a=1], [b=2], [x=2^-160]: the terms are of order
    [x], their sum of order [x^5], so some 193 digits cancel. *)
Lemma KnlInt_evaluate_guard_witness :
  snd (KnlInt_evaluate knl_4_0 (Q2Qc (1 # 2 ^ 160))
         (Polynomial_init (of_Z 1) (of_Z 2))) = inl (NameError "sys").
Proof.
  apply (@KnlInt_evaluate_guard Qc _ knl_4_0 (Q2Qc (1 # 2 ^ 160))
           (Polynomial_init (of_Z 1) (of_Z 2))).
  vm_compute. reflexivity.
Defined.

(** C3 at [n=4, l=0], [a=b=3]. *)
Lemma Compare_degenerate_witness :
  Compare (of_Z 1) (of_Z 2) 4 0 (of_Z 3) (of_Z 3) = inl ZeroDivisionError.
Proof.
  apply (@Compare_degenerate Qc _ qc_div_zero qc_mpf_sub qc_pow_zero_pos
           (of_Z 1) (of_Z 2) 4 0 (of_Z 3) knl_4_0).
  - vm_compute. reflexivity.
  - apply qc_sub_diag.
Defined.

(** C4 at [a=2], [b=3], [n=3]. *)
Lemma get_list_monomials_witness :
  exists m : list Qc,
    snd (get_list 3 (Polynomial_init (of_Z 2) (of_Z 3))) = inr m /\
    length m = 3%nat /\
    m !! 1%nat = Some (lpow (mpf 1) (of_Z 2 * of_Z 2) 1 *
                       lpow (mpf 1) (of_Z 3 * of_Z 3) 1).
Proof.
  destruct (@get_list_monomials Qc _ qc_mul_1_1 qc_mul_1_prod qc_mul_prod_1
              (Polynomial_init (of_Z 2) (of_Z 3)) 3)
    as (m & Em & Hlen & Hk & _).
  - split; reflexivity.
  - apply cache_ok_init.
  - lia.
  - exists m. split; [exact Em|]. split; [exact Hlen|]. apply (Hk 1%nat). lia.
Defined.

(** C5 at [n=4, l=0], [a=2], [b=1], bounds 1 and 2. *)
Lemma Compare_difference_witness :
  exists v : Qc, Compare (of_Z 1) (of_Z 2) 4 0 (of_Z 2) (of_Z 1) = inr v.
Proof.
  eexists.
  apply (@Compare_difference Qc _ (of_Z 1) (of_Z 2) 4 0 (of_Z 2) (of_Z 1) knl_4_0
           (value (snd (KnlInt_evaluate knl_4_0 (of_Z 1)
                          (Polynomial_init (of_Z 2) (of_Z 1)))))
           (value (snd (KnlInt_evaluate knl_4_0 (of_Z 2)
                          (Polynomial_init (of_Z 2) (of_Z 1)))))).
  - vm_compute. reflexivity.
  - vm_compute. reflexivity.
  - vm_compute. reflexivity.
Defined.

(** C6 fails at [n=2, l=0]: the table has no such key. *)
Lemma integrals_no_entry_for_2 :
  ~ (forall n l : Z, (n = 2 \/ n = 4 \/ n = 6) -> 0 <= l <= 10 ->
       is_Some (integrals (T := Qc) !! (n, l))).
Proof.
  intros Hall. destruct (Hall 2 0) as [k Ek]; [auto|lia|].
  vm_compute in Ek. discriminate.
Qed.

(** C6, as the table has it, at [n=6, l=10]. *)
Lemma integrals_lookup_supported_witness :
  is_Some (integrals (T := Qc) !! (6, 10)) /\ integrals (T := Qc) !! (2, 10) = None.
Proof. apply integrals_lookup_supported; [right; reflexivity|lia]. Defined.

(** C7 at [n=8, l=0]. *)
Lemma Compare_KeyError_witness :
  Compare (of_Z 1) (of_Z 2) 8 0 (of_Z 2) (of_Z 1) = inl KeyError.
Proof. apply Compare_KeyError. vm_compute. reflexivity. Defined.

(** C8 fails at the empty coefficient list: [IndexError], not 0. *)
Lemma eval_poly_empty_raises :
  snd (eval_poly [] (Polynomial_init (of_Z 1) (of_Z 2))) = inl IndexError /\
  snd (eval_poly [] (Polynomial_init (of_Z 1) (of_Z 2))) <> inr (mpf 0 : Qc).
Proof. split; [reflexivity|discriminate]. Qed.

(** C8, for a non-empty list, at [coeffs=[2,3,5]], [a=2], [b=3]. *)
Lemma eval_poly_weighted_sum_witness :
  exists m : list Qc,
    snd (get_list 3 (Polynomial_init (of_Z 2) (of_Z 3))) = inr m /\
    snd (eval_poly [of_Z 2; of_Z 3; of_Z 5] (Polynomial_init (of_Z 2) (of_Z 3))) =
      inr (of_Z 2 * nth 0 m (mpf 0) + of_Z 3 * nth 1 m (mpf 0)
           + of_Z 5 * nth 2 m (mpf 0)).
Proof.
  destruct (@eval_poly_weighted_sum Qc _ (Polynomial_init (of_Z 2) (of_Z 3))
              [of_Z 2; of_Z 3; of_Z 5]) as [Hsum _].
  - apply cache_ok_init.
  - destruct Hsum as (m & Eg & _ & _ & Ev); [discriminate|].
    exists m. split; [exact Eg|exact Ev].
Defined.

(** C9 at the term [(-2, 2, 0, [1,1])], [a=2], [b=1], [x=1/2]. *)
Lemma Term_evaluate_product_witness :
  exists xn : Qc,
    mp_pow (Q2Qc (1 # 2)) (mpf 2) = Some xn /\
    snd (Term_evaluate (Term_init (-2) 2 0 [1; 1]) (Q2Qc (1 # 2))
           (Polynomial_init (of_Z 2) (of_Z 1)))
    = inr (mpf (-2) * xn * mpf 1 *
           value (snd (eval_poly [mpf 1; mpf 1] (Polynomial_init (of_Z 2) (of_Z 1))))).
Proof.
  destruct (@Term_evaluate_product Qc _ qc_pow_pos (Term_init (-2) 2 0 [1; 1])
              (Q2Qc (1 # 2)) (Polynomial_init (of_Z 2) (of_Z 1))
              (value (snd (eval_poly [mpf 1; mpf 1]
                             (Polynomial_init (of_Z 2) (of_Z 1))))))
    as (xn & Exn & Hzero & _).
  - apply cache_ok_init.
  - reflexivity.
  - vm_compute. reflexivity.
  - exists xn. split; [exact Exn|]. apply Hzero. reflexivity.
Defined.

(** C10: a fresh context against one already used for [n=6, l=2]. *)
Lemma KnlInt_evaluate_deterministic_witness :
  snd (KnlInt_evaluate knl_4_1 (of_Z 1) (Polynomial_init (of_Z 2) (of_Z 1))) =
  snd (KnlInt_evaluate knl_4_1 (of_Z 1)
         (fst (KnlInt_evaluate knl_6_2 (of_Z 3) (Polynomial_init (of_Z 2) (of_Z 1))))).
Proof.
  pose proof (stable_spec (stable_KnlInt_evaluate (T := Qc) knl_6_2 (of_Z 3))
                (@cache_ok_init _ _ (of_Z 2) (of_Z 1))) as (Hc & Hs & _).
  exact (proj1 (KnlInt_evaluate_deterministic knl_4_1 (of_Z 1)
                  (@cache_ok_init _ _ (of_Z 2) (of_Z 1)) Hc Hs)).
Defined.

(** On exact rationals every table entry reaches the precision check
    whenever [x > 0] and none of [a*b], [a+b], [a-b] is 0. *)
Lemma KnlInt_termlist_defined_rational n l k (a b x : Qc) :
  integrals !! (n, l) = Some k ->
  mp_lt (mpf 0) x = true ->
  a * b <> mpf 0 -> a + b <> mpf 0 -> a - b <> mpf 0 ->
  exists termlist,
    snd (KnlInt_termlist k x (Polynomial_init a b)) = inr termlist.
Proof.
  intros Ek Hx Hab Hapb Hamb.
  destruct (integrals_entry _ _ Ek) as (_ & _ & _ & _ & Hne).
  apply (KnlInt_termlist_defined qc_lt_nonzero qc_pow_nonzero qc_div_nonzero);
    [exact Hne|apply cache_ok_init|exact Hx|exact Hab|exact Hapb|exact Hamb].
Qed.
End Examples.

(** * Further laws of the rational instance *)

Module QcMore.
Import QcNum QcFacts.
Local Open Scope mp_scope.

Lemma qc_add_comm (x y : Qc) : x + y = y + x.
Proof. apply Qcplus_comm. Qed.

Lemma qc_sub_swap (u v : Qc) : mpf 0 - (v - u) = u - v.
Proof. cbn [mpf mp_sub Qc_Mpf]. change (of_Z 0) with 0%Qc. ring. Qed.

Lemma qc_mpf_add (i j : Z) : mpf i + mpf j = mpf (i + j) :> Qc.
Proof.
  apply Qc_is_canon. cbn [mpf Qc_Mpf mp_add]. unfold Qcplus, of_Z.
  cbn [this Q2Qc]. rewrite !Qred_correct. rewrite inject_Z_plus. reflexivity.
Qed.

Lemma qc_pow_zero_neg (j : Z) : j < 0 -> mp_pow (mpf 0 : Qc) (mpf j) = None.
Proof.
  intros Hj. cbn [mp_pow mpf Qc_Mpf]. unfold pow.
  change (is_zero (of_Z 0)) with true. cbn match.
  unfold is_zero. rewrite this_of_Z. cbn [inject_Z Qnum].
  destruct (Z.ltb_spec 0 j); [lia|].
  destruct (Z.eqb_spec j 0); [lia|reflexivity].
Qed.
End QcMore.

(** * The further properties on concrete inputs *)

Module MoreExamples.
Import QcNum QcFacts QcMore.
Local Open Scope mp_scope.

Lemma knl_4_0_nonempty : KnlInt_nonempty (knl_4_0 (T := Qc)).
Proof.
  unfold KnlInt_nonempty, Part_nonempty. cbn.
  repeat split; repeat constructor; discriminate.
Qed.

Lemma knl_4_2_nonempty : KnlInt_nonempty (knl_4_2 (T := Qc)).
Proof.
  unfold KnlInt_nonempty, Part_nonempty. cbn.
  repeat split; repeat constructor; discriminate.
Qed.

Lemma Qc_neq (x y : Qc) : Qeq_bool (this x) (this y) = false -> x <> y.
Proof. intros E ->. now rewrite Qeq_bool_refl in E. Qed.

(** [get_list 3] for [a = 2], [b = 3], asked a second time. *)
Lemma get_list_caches_witness :
  get_list 3 (fst (get_list 3 (Polynomial_init (of_Z 2) (of_Z 3)))) =
    (fst (get_list 3 (Polynomial_init (of_Z 2) (of_Z 3))),
     inr (result_or [] (snd (get_list 3 (Polynomial_init (of_Z 2) (of_Z 3)))))).
Proof.
  refine (proj1 (proj2 (@get_list_caches Qc _ 3
            (Polynomial_init (of_Z 2) (of_Z 3)) _ _ _))).
  vm_compute. reflexivity.
Defined.

(** [get_list 0] from a fresh context. *)
Lemma get_list_failure_witness :
  0%nat = 0%nat /\
  poly_stored (Polynomial_init (of_Z 2) (of_Z 3)) !! 0%nat = None /\
  IndexError = IndexError /\
  Polynomial_init (of_Z 2) (of_Z 3) = Polynomial_init (of_Z 2) (of_Z 3).
Proof.
  apply (@get_list_failure Qc _ 0 (Polynomial_init (of_Z 2) (of_Z 3))).
  reflexivity.
Defined.

(** The context left by [n=4, l=1] at [x = 1], [a = 2], [b = 1]. *)
Lemma KnlInt_evaluate_cache_ok_witness :
  cache_ok (fst (KnlInt_evaluate knl_4_1 (of_Z 1) (Polynomial_init (of_Z 2) (of_Z 1)))).
Proof.
  refine (proj1 (@KnlInt_evaluate_cache_ok Qc _ knl_4_1 (of_Z 1) _ _)).
  apply cache_ok_init.
Defined.

(** The part [sdiff] of [n=4, l=0] at [x = 1/2], [a = 2], [b = 1]. *)
Lemma Part_evaluate_sum_witness :
  snd (Part_evaluate (knl_sdiff knl_4_0) (Q2Qc (1 # 2))
         (Polynomial_init (of_Z 2) (of_Z 1))) =
  inr (py_sum
         [result_or (mpf 0) (snd (Term_evaluate (Term_init 4 0 0 [1]) (Q2Qc (1 # 2))
                                    (Polynomial_init (of_Z 2) (of_Z 1))));
          result_or (mpf 0) (snd (Term_evaluate (Term_init (-2) 2 0 [1; 1]) (Q2Qc (1 # 2))
                                    (Polynomial_init (of_Z 2) (of_Z 1))))]).
Proof.
  refine (proj1 (@Part_evaluate_sum Qc _ (knl_sdiff knl_4_0) (Q2Qc (1 # 2))
                   (Polynomial_init (of_Z 2) (of_Z 1)) _ _ _)).
  - apply cache_ok_init.
  - cbn [knl_sdiff knl_4_0 KnlInt_init part_terms].
    repeat constructor; vm_compute; reflexivity.
Defined.

(** The part [cdiff] of [n=4, l=2] at [x = 0]: its second term has the
    exponent -1. *)
Lemma Part_evaluate_first_failure_witness :
  snd (Part_evaluate (knl_cdiff knl_4_2) (of_Z 0)
         (Polynomial_init (of_Z 2) (of_Z 1))) = inl ZeroDivisionError.
Proof.
  apply (@Part_evaluate_first_failure Qc _ (knl_cdiff knl_4_2) (of_Z 0)
           (Polynomial_init (of_Z 2) (of_Z 1))
           [Term_init (-16) 1 2 [1]] (Term_init 18 (-1) 0 [1; 1]) []).
  - apply cache_ok_init.
  - reflexivity.
  - repeat constructor. eexists. vm_compute. reflexivity.
  - vm_compute. reflexivity.
Defined.

(** The term [(18, -1, 0, [1, 1])] at [x = 0]. *)
Lemma Term_evaluate_failure_witness :
  Polynomial_init (of_Z 2) (of_Z 1) = Polynomial_init (of_Z 2) (of_Z 1) /\
  ((ZeroDivisionError = ZeroDivisionError /\
    (mp_pow (of_Z 0) (term_n (Term_init 18 (-1) 0 [1; 1])) = None \/
     (mp_eq (term_m (Term_init 18 (-1) 0 [1; 1])) (mpf 0) = false /\
      mp_pow (poly_a (Polynomial_init (of_Z 2) (of_Z 1)) *
              poly_b (Polynomial_init (of_Z 2) (of_Z 1)))
             (term_m (Term_init 18 (-1) 0 [1; 1])) = None))) \/
   (ZeroDivisionError = IndexError /\
    term_coeffs (Term_init (T := Qc) 18 (-1) 0 [1; 1]) = [])).
Proof.
  apply (@Term_evaluate_failure Qc _ (Term_init 18 (-1) 0 [1; 1]) (of_Z 0)
           (Polynomial_init (of_Z 2) (of_Z 1))).
  vm_compute. reflexivity.
Defined.

(** [n=4, l=0] at [a = b = 3]. *)
Lemma KnlInt_evaluate_errors_witness :
  (ZeroDivisionError = ZeroDivisionError /\
   insufficient_precision knl_4_0 (of_Z 1) (Polynomial_init (of_Z 3) (of_Z 3)) = false) \/
  (ZeroDivisionError = NameError "sys" /\
   insufficient_precision knl_4_0 (of_Z 1) (Polynomial_init (of_Z 3) (of_Z 3)) = true).
Proof.
  apply (@KnlInt_evaluate_errors Qc _ knl_4_0 (of_Z 1)
           (Polynomial_init (of_Z 3) (of_Z 3))).
  - apply knl_4_0_nonempty.
  - apply cache_ok_init.
  - vm_compute. reflexivity.
Defined.

(** [n=4, l=2] at [x = 0]: the first term of [csum] is [36 x^-1 (ab)]. *)
Lemma KnlInt_evaluate_at_zero_witness :
  snd (KnlInt_evaluate knl_4_2 (mpf 0) (Polynomial_init (of_Z 2) (of_Z 1)))
  = inl ZeroDivisionError.
Proof.
  apply (@KnlInt_evaluate_at_zero Qc _ qc_pow_zero_neg knl_4_2
           (Polynomial_init (of_Z 2) (of_Z 1)) (Term_init 36 (-1) 1 [1]) (-1)).
  - apply knl_4_2_nonempty.
  - apply cache_ok_init.
  - left. reflexivity.
  - reflexivity.
  - lia.
Defined.

(** [n=4, l=0] at [x = 1/2], [a = 2], [b = 1]: the guard has not fired. *)
Lemma KnlInt_evaluate_inversion_witness :
  exists tl : list Qc,
    length tl = 4%nat /\ mp_lt (prec_remaining tl) (mpf 13) = false /\
    result_or (mpf 0) (snd (KnlInt_evaluate knl_4_0 (Q2Qc (1 # 2))
                              (Polynomial_init (of_Z 2) (of_Z 1)))) = py_sum tl.
Proof.
  destruct (@KnlInt_evaluate_inversion Qc _ knl_4_0 (Q2Qc (1 # 2))
              (Polynomial_init (of_Z 2) (of_Z 1))
              (result_or (mpf 0) (snd (KnlInt_evaluate knl_4_0 (Q2Qc (1 # 2))
                                         (Polynomial_init (of_Z 2) (of_Z 1))))))
    as (Sc & Dc & Ss & Ds & abl & dcp & dcm & dsp & dsm & T1 & T2 & T3 & T4 & q
        & _ & _ & _ & _ & _ & _ & _ & _ & _ & _ & _ & _ & _ & _ & Hlt & Hr).
  - apply cache_ok_init.
  - vm_compute. reflexivity.
  - exists [q * T1; q * T2; q * T3; q * T4]. auto.
Defined.

(** [n=4, l=0] at [a = 1], [b = -1]. *)
Lemma KnlInt_evaluate_zero_divisor_witness :
  snd (KnlInt_evaluate knl_4_0 (of_Z 1) (Polynomial_init (of_Z 1) (of_Z (-1))))
  = inl ZeroDivisionError.
Proof.
  apply (@KnlInt_evaluate_zero_divisor Qc _ qc_div_zero qc_mpf_sub qc_mpf_add
           qc_pow_zero_pos 4 0 knl_4_0 (of_Z 1)).
  - vm_compute. reflexivity.
  - apply cache_ok_init.
  - left. apply Qc_is_canon. reflexivity.
Defined.

(** [n=4, l=0], [a = 2], [b = 1], bounds 1 and 2 exchanged. *)
Lemma Compare_swap_witness :
  Compare (of_Z 2) (of_Z 1) 4 0 (of_Z 2) (of_Z 1) =
    inr (mpf 0 - result_or (mpf 0) (Compare (of_Z 1) (of_Z 2) 4 0 (of_Z 2) (of_Z 1))).
Proof.
  apply (@Compare_swap Qc _ qc_sub_swap). vm_compute. reflexivity.
Defined.

(** [n=4, l=0], [a = 2], [b = 1], over [1, 2] and [2, 3]. *)
Lemma Compare_adjacent_witness :
  exists (k : KnlInt Qc) v1 v2 v3,
    integrals !! (4, 0) = Some k /\
    antiderivative k (of_Z 2) (of_Z 1) (of_Z 1) = inr v1 /\
    antiderivative k (of_Z 2) (of_Z 1) (of_Z 2) = inr v2 /\
    antiderivative k (of_Z 2) (of_Z 1) (of_Z 3) = inr v3 /\
    result_or (mpf 0) (Compare (of_Z 1) (of_Z 2) 4 0 (of_Z 2) (of_Z 1)) = v2 - v1 /\
    result_or (mpf 0) (Compare (of_Z 2) (of_Z 3) 4 0 (of_Z 2) (of_Z 1)) = v3 - v2 /\
    Compare (of_Z 1) (of_Z 3) 4 0 (of_Z 2) (of_Z 1) = inr (v3 - v1).
Proof.
  apply (@Compare_adjacent Qc _ (of_Z 1) (of_Z 2) (of_Z 3)).
  - vm_compute. reflexivity.
  - vm_compute. reflexivity.
Defined.

(** The monomials of degree 3 for [(2, 3)] and for [(3, 2)]. *)
Lemma get_list_swap_witness :
  snd (get_list 3 (Polynomial_init (of_Z 3) (of_Z 2))) =
    inr (reverse (result_or [] (snd (get_list 3 (Polynomial_init (of_Z 2) (of_Z 3)))))).
Proof.
  apply (@get_list_swap Qc _ qc_mul_comm (Polynomial_init (of_Z 2) (of_Z 3))).
  - repeat split.
  - apply cache_ok_init.
  - apply cache_ok_init.
  - vm_compute. reflexivity.
Defined.

(** The term [-6 x (ab) (a^2 + b^2)] of [csum] of [n=4, l=2], for
    [(2, 3)] and for [(3, 2)]. *)
Lemma integrals_summands_reversed_witness :
  snd (Term_evaluate (Term_init (-6) 1 1 [1; 1]) (of_Z 1)
         (Polynomial_init (of_Z 3) (of_Z 2))) =
  snd (Term_evaluate (Term_init (T := Qc) (-6) 1 1 [1; 1]) (of_Z 1)
         (Polynomial_init (of_Z 2) (of_Z 3))).
Proof.
  destruct (@integrals_summands_reversed Qc _ qc_mul_comm qc_add_comm
              4 2 knl_4_2 (Term_init (-6) 1 1 [1; 1])
              (Polynomial_init (of_Z 2) (of_Z 3))
              (Polynomial_init (of_Z 3) (of_Z 2)))
    as (m & _ & _ & _ & _ & Hshort).
  - vm_compute. reflexivity.
  - right. left. reflexivity.
  - apply cache_ok_init.
  - apply cache_ok_init.
  - repeat split.
  - apply Hshort. cbn. lia.
Defined.

(** [n=4, l=0] at [x = 1/2], [a = 2], [b = 1]. *)
Lemma KnlInt_evaluate_regular_witness :
  (exists r, snd (KnlInt_evaluate knl_4_0 (Q2Qc (1 # 2))
                    (Polynomial_init (of_Z 2) (of_Z 1))) = inr r) \/
  snd (KnlInt_evaluate knl_4_0 (Q2Qc (1 # 2))
         (Polynomial_init (of_Z 2) (of_Z 1))) = inl (NameError "sys").
Proof.
  apply (@KnlInt_evaluate_regular Qc _ qc_lt_nonzero qc_pow_nonzero qc_div_nonzero
           4 0 knl_4_0).
  - vm_compute. reflexivity.
  - apply cache_ok_init.
  - reflexivity.
  - apply Qc_neq. reflexivity.
  - apply Qc_neq. reflexivity.
  - apply Qc_neq. reflexivity.
Defined.
End MoreExamples.
